(** * ACTO chat backend: a shallow embedding of [acto-bacend.js]

    The server keeps four global stores ([users], [chats], [messages],
    [onlineUsers]) and registers one handler per Socket.IO event.  Each
    handler is embedded as a function from the server state to the new state
    together with the list of packets it hands to the transport, in the order
    the emits happen.

    Modelling conventions.
    - Identifiers (user ids, chat ids, socket ids, room names) and names are
      [string]s, the sequences of their bytes. The built-in
      [String.prototype.toLowerCase] is a parameter of the search
      ([search_users_with]); [toLowerCase] is what it does on ASCII text,
      where it maps ['A'..'Z'] to ['a'..'z'] and keeps every other character,
      and [search_users] is the search on such text.
    - A JS [Map] is an association list in insertion order with one entry
      per key ([JSMap]); a JS [Set] is a duplicate-free list in insertion
      order ([JSSet]).
    - [new Date().toISOString()] and [Date.now()] read the clock: every
      handler that does so takes the current time [now], in milliseconds
      since the epoch, as an argument.  An ISO timestamp is stored as that
      number ([new Date(iso).getTime()] gives it back).
    - Socket.IO: [socket.join room] adds the socket to the room,
      [io.to(room).emit] hands the packet to every socket joined to the room,
      [io.emit] to every connected socket; a socket that disconnects leaves
      all of its rooms before its [disconnect] handler runs. *)

From Stdlib Require Import String Ascii List Bool ZArith Lia.
Import ListNotations.
Local Open Scope string_scope.
Local Open Scope list_scope.

(** ** JS [Map] with string keys *)

Module JSMap.

Section Defs.
Context {V : Type}.

Definition t := list (string * V).

Definition empty : t := [].

Fixpoint get (k : string) (m : t) : option V :=
  match m with
  | [] => None
  | (k', v) :: r => if String.eqb k k' then Some v else get k r
  end.

Definition has (k : string) (m : t) : bool :=
  match get k m with Some _ => true | None => false end.

(** [set] on a key that is present replaces the value and keeps the entry's
    position; a new key goes to the end. *)
Fixpoint set (k : string) (v : V) (m : t) : t :=
  match m with
  | [] => [(k, v)]
  | (k', v') :: r =>
      if String.eqb k k' then (k, v) :: r else (k', v') :: set k v r
  end.

Fixpoint delete (k : string) (m : t) : t :=
  match m with
  | [] => []
  | (k', v') :: r =>
      if String.eqb k k' then delete k r else (k', v') :: delete k r
  end.

Definition keys (m : t) : list string := List.map fst m.
Definition values (m : t) : list V := List.map snd m.
Definition entries (m : t) : list (string * V) := m.
Definition size (m : t) : nat := length m.

(** One entry per key. *)
Definition wf (m : t) : Prop := NoDup (keys m).

(** [for (const [k, v] of m.entries()) if (cond v) m.delete(k)] *)
Definition delete_where (cond : V -> bool) (m : t) : t :=
  fold_left (fun acc kv => if cond (snd kv) then delete (fst kv) acc else acc)
            (entries m) m.
End Defs.

Arguments t : clear implicits.

End JSMap.

(** ** JS [Set] of strings *)

Module JSSet.

Definition t := list string.

Definition empty : t := [].

Definition has (x : string) (s : t) : bool :=
  existsb (String.eqb x) s.

Definition add (x : string) (s : t) : t :=
  if has x s then s else s ++ [x].

Definition delete (x : string) (s : t) : t :=
  filter (fun y => negb (String.eqb x y)) s.

Definition to_array (s : t) : list string := s.

End JSSet.

(** ** Data model *)

Definition UserId := string.
Definition ChatId := string.
Definition SocketId := string.
Definition Room := string.

(** The object built by the [user-online] handler. *)
Record User := mkUser {
  u_id : UserId;
  u_socketId : SocketId;
  u_username : string;
  u_displayName : string;
  u_isOnline : bool;
  u_lastSeen : Z
}.

(** Payload of [user-online]. *)
Record UserData := mkUserData {
  ud_userId : UserId;
  ud_username : string;
  ud_displayName : string
}.

(** Payload of [send-message]; the object is stored as it arrives. *)
Record MessageData := mkMessageData {
  md_id : string;
  md_chatId : ChatId;
  md_senderId : UserId;
  md_senderUsername : string;
  md_content : string
}.

(** Payload of [create-chat]; [admins] may be missing. *)
Record ChatData := mkChatData {
  cd_id : ChatId;
  cd_type : string;
  cd_name : string;
  cd_description : string;
  cd_participants : list UserId;
  cd_admins : option (list UserId);
  cd_creatorId : UserId
}.

(** The object built by the [create-chat] handler. *)
Record Chat := mkChat {
  c_id : ChatId;
  c_type : string;
  c_name : string;
  c_description : string;
  c_participants : list UserId;
  c_admins : list UserId;
  c_owner : UserId;
  c_createdAt : Z
}.

(** The entry returned by [search-users]. *)
Record UserSummary := mkUserSummary {
  us_id : UserId;
  us_username : string;
  us_displayName : string;
  us_isOnline : bool
}.

(** Outbound events with their payloads. *)
Inductive OutEvent : Type :=
| UsersOnline (ids : list UserId)
| NewMessage (m : MessageData)
| ChatCreated (c : Chat)
| UserJoinedChat (chatId : ChatId) (userId : UserId) (username : option string)
| UserLeftChat (chatId : ChatId) (userId : UserId) (username : option string)
| MessageRead (chatId : ChatId) (messageId : string) (readBy : UserId)
| UserTyping (chatId : ChatId) (userId : UserId) (username : option string)
             (isTyping : bool)
| UserOffline (userId : UserId) (lastSeen : Z).

(** A packet handed to the transport: the receiving socket and the event. *)
Definition Delivery : Type := SocketId * OutEvent.

(** The global stores, and the part of the Socket.IO server the handlers
    use: the connected sockets and the room membership, in join order. *)
Record Server := mkServer {
  users : JSMap.t User;
  chats : JSMap.t Chat;
  messages : JSMap.t (list MessageData);
  onlineUsers : JSSet.t;
  sockets : list SocketId;
  rooms : list (Room * SocketId)
}.

Definition init : Server :=
  mkServer JSMap.empty JSMap.empty JSMap.empty JSSet.empty [] [].

(** ** String and array primitives used by the handlers *)

(** [String.prototype.toLowerCase] on ASCII text: the letters ['A'..'Z']
    are folded, every other character is kept. On other text the built-in
    folds more; the search takes it as a parameter, see [search_users_with]. *)
Definition lower_ascii (c : ascii) : ascii :=
  let n := nat_of_ascii c in
  if Nat.leb 65 n && Nat.leb n 90 then ascii_of_nat (n + 32) else c.

Fixpoint toLowerCase (s : string) : string :=
  match s with
  | EmptyString => EmptyString
  | String c r => String (lower_ascii c) (toLowerCase r)
  end.

(** [String.prototype.includes]: [sub] occurs in [s] at some position. *)
Fixpoint str_includes (s sub : string) : bool :=
  String.prefix sub s
  || match s with
     | EmptyString => false
     | String _ r => str_includes r sub
     end.

(** [Array.prototype.includes] on an array of ids. *)
Definition arr_includes (x : string) (l : list string) : bool :=
  existsb (String.eqb x) l.

(** ** The Socket.IO operations the handlers call *)

(** The personal room [`user_${id}`]. *)
Definition user_room (id : UserId) : Room := String.append "user_" id.

Definition sockets_in (r : Room) (st : Server) : list SocketId :=
  map snd (filter (fun p => String.eqb r (fst p)) (rooms st)).

Definition in_room (r : Room) (s : SocketId) (st : Server) : bool :=
  existsb (fun p => String.eqb r (fst p) && String.eqb s (snd p)) (rooms st).

(** [io.to(room).emit(ev, payload)] *)
Definition io_to_emit (r : Room) (ev : OutEvent) (st : Server) : list Delivery :=
  map (fun s => (s, ev)) (sockets_in r st).

(** [io.emit(ev, payload)] *)
Definition io_emit (ev : OutEvent) (st : Server) : list Delivery :=
  map (fun s => (s, ev)) (sockets st).

(** [participants.forEach(p => io.to(`user_${p}`).emit(ev, payload))] *)
Definition emit_to_each (ps : list UserId) (ev : OutEvent) (st : Server)
  : list Delivery :=
  flat_map (fun p => io_to_emit (user_room p) ev st) ps.

(** [socket.join(room)] *)
Definition socket_join (s : SocketId) (r : Room) (st : Server) : Server :=
  if in_room r s st then st
  else mkServer (users st) (chats st) (messages st) (onlineUsers st)
                (sockets st) (rooms st ++ [(r, s)]).

(** A new connection. *)
Definition connection (s : SocketId) (st : Server) : Server :=
  if existsb (String.eqb s) (sockets st) then st
  else mkServer (users st) (chats st) (messages st) (onlineUsers st)
                (sockets st ++ [s]) (rooms st).

(** What the library does to a socket that closes, before the handler of
    [disconnect] runs: the socket leaves its rooms and the namespace. *)
Definition socket_close (s : SocketId) (st : Server) : Server :=
  mkServer (users st) (chats st) (messages st) (onlineUsers st)
           (filter (fun s' => negb (String.eqb s s')) (sockets st))
           (filter (fun p => negb (String.eqb s (snd p))) (rooms st)).

Definition with_users (f : JSMap.t User -> JSMap.t User) (st : Server) :=
  mkServer (f (users st)) (chats st) (messages st) (onlineUsers st)
           (sockets st) (rooms st).
Definition with_chats (f : JSMap.t Chat -> JSMap.t Chat) (st : Server) :=
  mkServer (users st) (f (chats st)) (messages st) (onlineUsers st)
           (sockets st) (rooms st).
Definition with_messages
  (f : JSMap.t (list MessageData) -> JSMap.t (list MessageData)) (st : Server) :=
  mkServer (users st) (chats st) (f (messages st)) (onlineUsers st)
           (sockets st) (rooms st).
Definition with_onlineUsers (f : JSSet.t -> JSSet.t) (st : Server) :=
  mkServer (users st) (chats st) (messages st) (f (onlineUsers st))
           (sockets st) (rooms st).

(** [users.get(userId)?.username] *)
Definition username_of (userId : UserId) (st : Server) : option string :=
  option_map u_username (JSMap.get userId (users st)).

(** ** The handlers *)

(** [socket.on("user-online", ...)] *)
Definition user_online (sock : SocketId) (userData : UserData) (now : Z)
  (st : Server) : Server * list Delivery :=
  let user := mkUser (ud_userId userData) sock (ud_username userData)
                     (ud_displayName userData) true now in
  let st1 := with_users (JSMap.set (ud_userId userData) user) st in
  let st2 := with_onlineUsers (JSSet.add (ud_userId userData)) st1 in
  let out := io_emit (UsersOnline (JSSet.to_array (onlineUsers st2))) st2 in
  (socket_join sock (user_room (ud_userId userData)) st2, out).

(** [messages.get(chatId).push(messageData)]; the log is there when the
    handler calls it. *)
Definition push_message (m : MessageData) (ms : JSMap.t (list MessageData))
  : JSMap.t (list MessageData) :=
  match JSMap.get (md_chatId m) ms with
  | Some log => JSMap.set (md_chatId m) (log ++ [m]) ms
  | None => ms
  end.

(** [socket.on("send-message", ...)] *)
Definition send_message (sock : SocketId) (messageData : MessageData)
  (st : Server) : Server * list Delivery :=
  let st1 :=
    if negb (JSMap.has (md_chatId messageData) (messages st))
    then with_messages (JSMap.set (md_chatId messageData) []) st
    else st in
  let st2 := with_messages (push_message messageData) st1 in
  match JSMap.get (md_chatId messageData) (chats st2) with
  | Some chat =>
      (st2, emit_to_each (c_participants chat) (NewMessage messageData) st2)
  | None => (st2, [])
  end.

Definition newChat (chatData : ChatData) (now : Z) : Chat :=
  mkChat (cd_id chatData) (cd_type chatData) (cd_name chatData)
         (cd_description chatData) (cd_participants chatData)
         (match cd_admins chatData with
          | Some a => a
          | None => [cd_creatorId chatData]
          end)
         (cd_creatorId chatData) now.

(** [socket.on("create-chat", ...)] *)
Definition create_chat (sock : SocketId) (chatData : ChatData) (now : Z)
  (st : Server) : Server * list Delivery :=
  let c := newChat chatData now in
  let st1 := with_chats (JSMap.set (cd_id chatData) c) st in
  let st2 := with_messages (JSMap.set (cd_id chatData) []) st1 in
  (st2, emit_to_each (c_participants c) (ChatCreated c) st2).

Definition set_participants (ps : list UserId) (c : Chat) : Chat :=
  mkChat (c_id c) (c_type c) (c_name c) (c_description c) ps
         (c_admins c) (c_owner c) (c_createdAt c).

(** [socket.on("join-chat", ...)] *)
Definition join_chat (sock : SocketId) (chatId : ChatId) (userId : UserId)
  (st : Server) : Server * list Delivery :=
  match JSMap.get chatId (chats st) with
  | Some chat =>
      if negb (arr_includes userId (c_participants chat)) then
        let chat' := set_participants (c_participants chat ++ [userId]) chat in
        let st1 := with_chats (JSMap.set chatId chat') st in
        (st1, emit_to_each (c_participants chat')
                (UserJoinedChat chatId userId (username_of userId st1)) st1)
      else (st, [])
  | None => (st, [])
  end.

(** [socket.on("leave-chat", ...)] *)
Definition leave_chat (sock : SocketId) (chatId : ChatId) (userId : UserId)
  (st : Server) : Server * list Delivery :=
  match JSMap.get chatId (chats st) with
  | Some chat =>
      let chat' :=
        set_participants
          (filter (fun p => negb (String.eqb p userId)) (c_participants chat))
          chat in
      let st1 := with_chats (JSMap.set chatId chat') st in
      (st1, emit_to_each (c_participants chat')
              (UserLeftChat chatId userId (username_of userId st1)) st1)
  | None => (st, [])
  end.

Definition summary (st : Server) (user : User) : UserSummary :=
  mkUserSummary (u_id user) (u_username user) (u_displayName user)
                (JSSet.has (u_id user) (onlineUsers st)).

(** [socket.on("search-users", ...)]: the value passed to the callback, with
    [String.prototype.toLowerCase] as the parameter [fold]. *)
Section SearchUsers.
Variable fold : string -> string.

Definition search_matches_with (query : string) (user : User) : bool :=
  str_includes (fold (u_username user)) (fold query)
  || str_includes (fold (u_displayName user)) (fold query).

Definition search_users_with (query : string) (st : Server) : list UserSummary :=
  map (summary st)
      (firstn 10 (filter (search_matches_with query) (JSMap.values (users st)))).
End SearchUsers.


Definition search_users (query : string) (st : Server) : list UserSummary :=
  search_users_with toLowerCase query st.

(** [socket.on("get-messages", ...)]: the value passed to the callback. *)
Definition get_messages (chatId : ChatId) (st : Server) : list MessageData :=
  match JSMap.get chatId (messages st) with
  | Some chatMessages => chatMessages
  | None => []
  end.

(** [participants.forEach(p => { if (p !== userId) io.to(...).emit(...) })] *)
Definition emit_to_others (ps : list UserId) (userId : UserId) (ev : OutEvent)
  (st : Server) : list Delivery :=
  flat_map (fun p => if negb (String.eqb p userId)
                     then io_to_emit (user_room p) ev st else []) ps.

(** [socket.on("mark-as-read", ...)] *)
Definition mark_as_read (sock : SocketId) (chatId : ChatId) (userId : UserId)
  (messageId : string) (st : Server) : Server * list Delivery :=
  match JSMap.get chatId (chats st) with
  | Some chat =>
      (st, emit_to_others (c_participants chat) userId
             (MessageRead chatId messageId userId) st)
  | None => (st, [])
  end.

(** [socket.on("typing", ...)] *)
Definition typing (sock : SocketId) (chatId : ChatId) (userId : UserId)
  (isTyping : bool) (st : Server) : Server * list Delivery :=
  match JSMap.get chatId (chats st) with
  | Some chat =>
      (st, emit_to_others (c_participants chat) userId
             (UserTyping chatId userId (username_of userId st) isTyping) st)
  | None => (st, [])
  end.

Definition set_offline (now : Z) (u : User) : User :=
  mkUser (u_id u) (u_socketId u) (u_username u) (u_displayName u) false now.

(** [socket.on("disconnect", ...)], after the library has closed the socket. *)
Definition disconnect (sock : SocketId) (now : Z) (st0 : Server)
  : Server * list Delivery :=
  let st := socket_close sock st0 in
  match find (fun kv => String.eqb (u_socketId (snd kv)) sock)
             (JSMap.entries (users st)) with
  | Some (userId, user) =>
      let disconnectedUser := set_offline now user in
      let st1 := with_users (JSMap.set userId disconnectedUser) st in
      let st2 := with_onlineUsers (JSSet.delete userId) st1 in
      (st2,
       io_emit (UsersOnline (JSSet.to_array (onlineUsers st2))) st2
       ++ io_emit (UserOffline (u_id disconnectedUser)
                               (u_lastSeen disconnectedUser)) st2)
  | None => (st, [])
  end.

(** ** The periodic cleanup *)

Definition timeout : Z := 10 * 60 * 1000.

Definition inactive (now : Z) (user : User) : bool :=
  negb (u_isOnline user) && Z.ltb timeout (now - u_lastSeen user).

Definition is_empty_chat (chat : Chat) : bool :=
  Nat.eqb (length (c_participants chat)) 0.

(** The second loop: each empty chat is deleted together with its log. *)
Definition cleanup_chats (st : Server) : Server :=
  fold_left
    (fun acc kv =>
       if is_empty_chat (snd kv)
       then with_messages (JSMap.delete (fst kv))
              (with_chats (JSMap.delete (fst kv)) acc)
       else acc)
    (JSMap.entries (chats st)) st.

(** The body of the [setInterval] callback. *)
Definition cleanup (now : Z) (st : Server) : Server :=
  cleanup_chats (with_users (JSMap.delete_where (inactive now)) st).

(** ** The event loop *)

(** What the server reacts to: a socket event, or the cleanup timer. *)
Inductive InEvent : Type :=
| EvConnection (sock : SocketId)
| EvUserOnline (sock : SocketId) (userData : UserData)
| EvSendMessage (sock : SocketId) (messageData : MessageData)
| EvCreateChat (sock : SocketId) (chatData : ChatData)
| EvJoinChat (sock : SocketId) (chatId : ChatId) (userId : UserId)
| EvLeaveChat (sock : SocketId) (chatId : ChatId) (userId : UserId)
| EvSearchUsers (sock : SocketId) (query : string)
| EvGetMessages (sock : SocketId) (chatId : ChatId)
| EvMarkAsRead (sock : SocketId) (chatId : ChatId) (userId : UserId)
               (messageId : string)
| EvTyping (sock : SocketId) (chatId : ChatId) (userId : UserId)
           (isTyping : bool)
| EvDisconnect (sock : SocketId)
| EvCleanup.

(** One event, handled at time [now]. The two request/reply events answer
    through their callback and touch nothing. *)
Definition step (now : Z) (e : InEvent) (st : Server) : Server * list Delivery :=
  match e with
  | EvConnection sock => (connection sock st, [])
  | EvUserOnline sock d => user_online sock d now st
  | EvSendMessage sock m => send_message sock m st
  | EvCreateChat sock d => create_chat sock d now st
  | EvJoinChat sock c u => join_chat sock c u st
  | EvLeaveChat sock c u => leave_chat sock c u st
  | EvSearchUsers _ _ => (st, [])
  | EvGetMessages _ _ => (st, [])
  | EvMarkAsRead sock c u m => mark_as_read sock c u m st
  | EvTyping sock c u b => typing sock c u b st
  | EvDisconnect sock => disconnect sock now st
  | EvCleanup => (cleanup now st, [])
  end.

(** Events are handled one at a time, in arrival order. *)
Fixpoint run (tr : list (Z * InEvent)) (st : Server) : Server * list Delivery :=
  match tr with
  | [] => (st, [])
  | (now, e) :: tr' =>
      let (st1, out1) := step now e st in
      let (st2, out2) := run tr' st1 in
      (st2, out1 ++ out2)
  end.

Definition state_after (tr : list (Z * InEvent)) : Server := fst (run tr init).

(** Each of the three maps holds one entry per key. *)
Record wf_server (st : Server) : Prop := mk_wf {
  wf_users : JSMap.wf (users st);
  wf_chats : JSMap.wf (chats st);
  wf_messages : JSMap.wf (messages st)
}.

(** ** Vocabulary of the statements *)

(** [sub] occurs in [s] once both are lower-cased by [fold]: a
    case-insensitive substring. *)
Definition contains_ci (fold : string -> string) (s sub : string) : Prop :=
  exists pre post : string,
    fold s = String.append pre (String.append (fold sub) post).

(** The membership events. *)
Definition is_membership (e : InEvent) : bool :=
  match e with
  | EvJoinChat _ _ _ | EvLeaveChat _ _ _ => true
  | _ => false
  end.

(** Event [e], arriving in state [st], resets the log of chat [c]: it is a
    [create-chat] with that id, or a cleanup that finds the chat with no
    participant. *)
Definition resets_log_at (c : ChatId) (e : InEvent) (st : Server) : bool :=
  match e with
  | EvCreateChat _ d => String.eqb (cd_id d) c
  | EvCleanup =>
      match JSMap.get c (chats st) with
      | Some chat => is_empty_chat chat
      | None => false
      end
  | _ => false
  end.

(** The messages a trace sends to chat [c], in the order of the trace. *)
Fixpoint sent_to (c : ChatId) (tr : list (Z * InEvent)) : list MessageData :=
  match tr with
  | [] => []
  | (_, EvSendMessage _ m) :: tr' =>
      if String.eqb (md_chatId m) c then m :: sent_to c tr' else sent_to c tr'
  | _ :: tr' => sent_to c tr'
  end.

(** No event of the trace, run from [st], resets the log of chat [c]. *)
Fixpoint no_reset (c : ChatId) (tr : list (Z * InEvent)) (st : Server) : bool :=
  match tr with
  | [] => true
  | (now, e) :: tr' =>
      negb (resets_log_at c e st) && no_reset c tr' (fst (step now e st))
  end.

(** [ConnectionOf]: the socket recorded for a user. *)
Definition connection_of (u : UserId) (st : Server) : option SocketId :=
  option_map u_socketId (JSMap.get u (users st)).

(** ** A running example *)

Module Scenario.
Local Open Scope Z_scope.

Definition alice : UserData := mkUserData "alice" "alice" "Alice".
Definition bob : UserData := mkUserData "bob" "bob" "Bob".

Definition c1 : ChatData :=
  mkChatData "c1" "group" "Team" EmptyString ["alice"; "bob"] None "alice".

Definition hi : MessageData := mkMessageData "m1" "c1" "alice" "alice" "hi".

(** alice on socket s1 and bob on socket s2 share the chat c1. *)
Definition setup : list (Z * InEvent) :=
  [ (0, EvConnection "s1"); (1, EvConnection "s2");
    (2, EvUserOnline "s1" alice); (3, EvUserOnline "s2" bob);
    (4, EvCreateChat "s1" c1) ].

(** alice has sent "hi" to c1. *)
Definition chatting : list (Z * InEvent) := setup ++ [(5, EvSendMessage "s1" hi)].

(** bob answers in c1. *)
Definition hello : MessageData := mkMessageData "m2" "c1" "bob" "bob" "hello".

(** A request with no participant, and one that reuses the id c1. *)
Definition nobody : ChatData :=
  mkChatData "c2" "group" "Empty" EmptyString [] None "alice".
Definition c1_again : ChatData :=
  mkChatData "c1" "direct" "Again" EmptyString ["bob"] (Some []) "bob".

(** A message for a chat nobody created. *)
Definition stray : MessageData := mkMessageData "m9" "ghost" "bob" "bob" "anyone?".

(** alice comes online a second time, on socket s3. *)
Definition twice : list (Z * InEvent) :=
  setup ++ [ (5, EvConnection "s3"); (6, EvUserOnline "s3" alice) ].

(** A chat created with the same id listed twice, then joined by bob. *)
Definition doubled : ChatData :=
  mkChatData "c3" "group" "Twice" EmptyString ["alice"; "alice"] None "alice".
Definition doubled_then_join : list (Z * InEvent) :=
  [ (0, EvCreateChat "s1" doubled); (1, EvJoinChat "s2" "c3" "bob") ].

(** Two users of the same names, registered in either order. *)
Definition sam_a : UserData := mkUserData "a" "sam" "Sam".
Definition sam_b : UserData := mkUserData "b" "sam" "Sam".
Definition a_then_b : list (Z * InEvent) :=
  [ (0, EvUserOnline "s1" sam_a); (0, EvUserOnline "s2" sam_b) ].
Definition b_then_a : list (Z * InEvent) :=
  [ (0, EvUserOnline "s2" sam_b); (0, EvUserOnline "s1" sam_a) ].

(** After "hi", c1 is created again. *)
Definition recreated : list (Z * InEvent) :=
  chatting ++ [(6, EvCreateChat "s2" c1_again)].

(** bob has left the server; eleven minutes later the cleanup runs. *)
Definition bob_gone : list (Z * InEvent) :=
  chatting ++ [ (6, EvDisconnect "s2") ].
Definition sweep_time : Z := 6 + 11 * 60 * 1000.
End Scenario.

(** ** The reporting routes *)

(** The body of [GET /stats]. *)
Record Stats := mkStats {
  s_totalUsers : nat;
  s_onlineUsers : nat;
  s_totalChats : nat;
  s_totalMessages : nat
}.

Definition stats (st : Server) : Stats :=
  mkStats (JSMap.size (users st)) (length (onlineUsers st))
          (JSMap.size (chats st))
          (fold_left (fun sum chatMessages => sum + length chatMessages)
                     (JSMap.values (messages st)) 0).

(** An entry of [GET /users]. *)
Record UserEntry := mkUserEntry {
  ue_id : UserId;
  ue_username : string;
  ue_displayName : string;
  ue_isOnline : bool;
  ue_lastSeen : Z
}.

Definition usersList (st : Server) : list UserEntry :=
  map (fun user => mkUserEntry (u_id user) (u_username user)
                     (u_displayName user)
                     (JSSet.has (u_id user) (onlineUsers st))
                     (u_lastSeen user))
      (JSMap.values (users st)).

(** An entry of [GET /chats]. *)
Record ChatEntry := mkChatEntry {
  ce_id : ChatId;
  ce_type : string;
  ce_name : string;
  ce_participantCount : nat;
  ce_messageCount : nat
}.

(** [messages.get(chat.id)?.length || 0] *)
Definition messageCount (chat : Chat) (st : Server) : nat :=
  match JSMap.get (c_id chat) (messages st) with
  | Some chatMessages => length chatMessages
  | None => 0
  end.

Definition chatsList (st : Server) : list ChatEntry :=
  map (fun chat => mkChatEntry (c_id chat) (c_type chat) (c_name chat)
                     (length (c_participants chat)) (messageCount chat st))
      (JSMap.values (chats st)).

(** ** Invariants of the stores *)

(** The registry and the online set agree: a user is stored under its own
    id, its [isOnline] flag says whether the id is in the online set, and
    the online set lists only registered ids, each once. *)
Record presence_ok (st : Server) : Prop := mk_presence_ok {
  po_key : forall k user, JSMap.get k (users st) = Some user -> u_id user = k;
  po_flag : forall k user, JSMap.get k (users st) = Some user ->
                           u_isOnline user = JSSet.has k (onlineUsers st);
  po_known : forall k, JSSet.has k (onlineUsers st) = true ->
                       JSMap.has k (users st) = true;
  po_nodup : NoDup (onlineUsers st)
}.

(** The directory and the message store agree: a chat is stored under its
    own id and has a log. *)
Record directory_ok (st : Server) : Prop := mk_directory_ok {
  do_key : forall k chat, JSMap.get k (chats st) = Some chat -> c_id chat = k;
  do_log : forall k, JSMap.has k (chats st) = true ->
                     JSMap.has k (messages st) = true
}.

(** The socket an event comes from; the cleanup comes from the timer. *)
Definition event_socket (e : InEvent) : option SocketId :=
  match e with
  | EvConnection s | EvUserOnline s _ | EvSendMessage s _ | EvCreateChat s _
  | EvJoinChat s _ _ | EvLeaveChat s _ _ | EvSearchUsers s _
  | EvGetMessages s _ | EvMarkAsRead s _ _ _ | EvTyping s _ _ _
  | EvDisconnect s => Some s
  | EvCleanup => None
  end.

(** No event of the trace comes from socket [s]. *)
Definition silent (s : SocketId) (tr : list (Z * InEvent)) : Prop :=
  Forall (fun te => event_socket (snd te) <> Some s) tr.

(** Socket [s] is neither connected nor in a room. *)
Definition closed (s : SocketId) (st : Server) : Prop :=
  ~ In s (sockets st) /\ (forall r, ~ In s (sockets_in r st)).

(** * Properties *)

(** ** Facts about [JSMap] *)

Section JSMapFacts.
Context {V : Type}.
Implicit Types (m : JSMap.t V) (k : string) (v : V).

Lemma jsmap_get_set_eq k v m : JSMap.get k (JSMap.set k v m) = Some v.
Proof.
  induction m as [|[k' v'] r IH]; simpl.
  - now rewrite String.eqb_refl.
  - destruct (String.eqb k k') eqn:E; simpl; rewrite ?String.eqb_refl, ?E; auto.
Qed.

Lemma jsmap_get_set_neq k k' v m :
  k <> k' -> JSMap.get k (JSMap.set k' v m) = JSMap.get k m.
Proof.
  intros N. induction m as [|[k2 v2] r IH]; simpl.
  - apply String.eqb_neq in N. now rewrite N.
  - destruct (String.eqb k' k2) eqn:E; simpl.
    + apply String.eqb_eq in E. subst k2.
      apply String.eqb_neq in N. now rewrite N.
    + now rewrite IH.
Qed.

Lemma jsmap_get_set k k' v m :
  JSMap.get k (JSMap.set k' v m)
  = if String.eqb k k' then Some v else JSMap.get k m.
Proof.
  destruct (String.eqb k k') eqn:E.
  - apply String.eqb_eq in E. subst. apply jsmap_get_set_eq.
  - apply String.eqb_neq in E. now apply jsmap_get_set_neq.
Qed.

Lemma jsmap_delete_filter k m :
  JSMap.delete k m = filter (fun kv => negb (String.eqb k (fst kv))) m.
Proof.
  induction m as [|[k' v'] r IH]; simpl; auto.
  destruct (String.eqb k k'); simpl; now rewrite IH.
Qed.

Lemma jsmap_get_delete k k' m :
  JSMap.get k (JSMap.delete k' m)
  = if String.eqb k k' then None else JSMap.get k m.
Proof.
  induction m as [|[k2 v2] r IH]; simpl.
  - now destruct (String.eqb k k').
  - destruct (String.eqb k' k2) eqn:E; simpl.
    + rewrite IH. apply String.eqb_eq in E. subst k2.
      now destruct (String.eqb k k').
    + rewrite IH. destruct (String.eqb k k') eqn:E2; auto.
      apply String.eqb_eq in E2. subst k'. now rewrite E.
Qed.

Lemma jsmap_get_none_not_in k m :
  JSMap.get k m = None <-> ~ In k (JSMap.keys m).
Proof.
  induction m as [|[k' v'] r IH]; simpl.
  - tauto.
  - destruct (String.eqb k k') eqn:E.
    + apply String.eqb_eq in E. subst. split; [discriminate | tauto].
    + apply String.eqb_neq in E. rewrite IH. split.
      * intros H [H1 | H1]; [now apply E | now apply H].
      * tauto.
Qed.

Lemma jsmap_get_some_in k v m : JSMap.get k m = Some v -> In (k, v) m.
Proof.
  induction m as [|[k' v'] r IH]; simpl; [discriminate|].
  destruct (String.eqb k k') eqn:E.
  - apply String.eqb_eq in E. subst. intros [= ->]. now left.
  - auto.
Qed.

Lemma jsmap_in_get k v m : JSMap.wf m -> In (k, v) m -> JSMap.get k m = Some v.
Proof.
  unfold JSMap.wf. induction m as [|[k' v'] r IH]; simpl; [tauto|].
  intros W [H | H].
  - injection H as -> ->. now rewrite String.eqb_refl.
  - inversion W as [|? ? Hn Hr]; subst.
    destruct (String.eqb k k') eqn:E.
    + apply String.eqb_eq in E. subst k'. exfalso. apply Hn.
      change k with (fst (k, v)). now apply in_map.
    + auto.
Qed.

Lemma jsmap_keys_set k v m :
  JSMap.keys (JSMap.set k v m)
  = if JSMap.has k m then JSMap.keys m else JSMap.keys m ++ [k].
Proof.
  unfold JSMap.has. induction m as [|[k' v'] r IH]; simpl; auto.
  destruct (String.eqb k k') eqn:E; simpl.
  - apply String.eqb_eq in E. now subst.
  - rewrite IH. now destruct (JSMap.get k r).
Qed.

Lemma jsmap_wf_set k v m : JSMap.wf m -> JSMap.wf (JSMap.set k v m).
Proof.
  unfold JSMap.wf. rewrite jsmap_keys_set. unfold JSMap.has.
  destruct (JSMap.get k m) eqn:E; auto.
  intros W. apply jsmap_get_none_not_in in E.
  apply NoDup_app; auto.
  - repeat constructor. simpl. tauto.
  - intros a Ha [<- | []]. now apply E.
Qed.

Lemma jsmap_wf_filter (f : string * V -> bool) m :
  JSMap.wf m -> JSMap.wf (filter f m).
Proof.
  unfold JSMap.wf, JSMap.keys. induction m as [|[k' v'] r IH]; simpl; auto.
  intros W. inversion W as [|? ? Hn Hr]; subst.
  destruct (f (k', v')); simpl; auto.
  constructor; auto.
  rewrite in_map_iff in *. intros [x [Hx Hin]]. apply Hn.
  exists x. split; auto. apply filter_In in Hin. tauto.
Qed.

Lemma jsmap_wf_delete k m : JSMap.wf m -> JSMap.wf (JSMap.delete k m).
Proof. rewrite jsmap_delete_filter. apply jsmap_wf_filter. Qed.

Lemma jsmap_get_filter (f : string * V -> bool) k m :
  JSMap.wf m ->
  JSMap.get k (filter f m)
  = match JSMap.get k m with
    | Some v => if f (k, v) then Some v else None
    | None => None
    end.
Proof.
  unfold JSMap.wf, JSMap.keys. induction m as [|[k' v'] r IH]; simpl; auto.
  intros W. inversion W as [|? ? Hn Hr]; subst.
  destruct (String.eqb k k') eqn:E.
  - apply String.eqb_eq in E. subst k'.
    destruct (f (k, v')) eqn:F; simpl.
    + now rewrite String.eqb_refl.
    + rewrite IH by assumption.
      destruct (JSMap.get k r) eqn:G; auto.
      apply jsmap_get_some_in in G. exfalso. apply Hn.
      change k with (fst (k, v)). now apply in_map.
  - destruct (f (k', v')); simpl; rewrite ?E; auto.
Qed.

(** On a map with one entry per key the deleting loop keeps exactly the
    entries that fail the test, in their order. *)
Lemma jsmap_delete_where_fold {W} (cond : W -> bool) (l : list (string * W)) m :
  fold_left (fun a kv => if cond (snd kv) then JSMap.delete (fst kv) a else a)
            l m
  = filter (fun kv' => negb (existsb (fun kv => cond (snd kv)
                                       && String.eqb (fst kv) (fst kv')) l))
           m.
Proof.
  revert m. induction l as [|[k v] l IH]; intros m; simpl.
  - symmetry. apply forallb_filter_id. now apply forallb_forall.
  - destruct (cond v) eqn:C; simpl.
    + rewrite IH, jsmap_delete_filter.
      induction m as [|[k2 v2] m IHm]; simpl; auto.
      destruct (String.eqb k k2) eqn:E; simpl; rewrite IHm; auto.
    + apply IH.
Qed.

Lemma jsmap_delete_where_filter (cond : V -> bool) m :
  JSMap.wf m ->
  JSMap.delete_where cond m = filter (fun kv => negb (cond (snd kv))) m.
Proof.
  intros W. unfold JSMap.delete_where, JSMap.entries.
  rewrite jsmap_delete_where_fold.
  apply filter_ext_in. intros [k v] Hin. simpl. f_equal.
  destruct (cond v) eqn:C.
  - apply existsb_exists. exists (k, v). simpl.
    now rewrite C, String.eqb_refl.
  - apply not_true_is_false. intros H. apply existsb_exists in H.
    destruct H as [[k2 v2] [Hin2 H2]]. simpl in H2.
    apply andb_prop in H2. destruct H2 as [C2 E2].
    apply String.eqb_eq in E2. subst k2.
    pose proof (jsmap_in_get _ _ _ W Hin) as H1.
    pose proof (jsmap_in_get _ _ _ W Hin2) as H3. congruence.
Qed.
End JSMapFacts.

(** ** Reachable states hold one entry per key *)

Lemma wf_init : wf_server init.
Proof. split; constructor. Qed.

Lemma wf_socket_join s r st : wf_server st -> wf_server (socket_join s r st).
Proof. unfold socket_join. destruct (in_room r s st); auto. intros []; now split. Qed.

Lemma wf_cleanup_chats st : wf_server st -> wf_server (cleanup_chats st).
Proof.
  unfold cleanup_chats. generalize (JSMap.entries (chats st)) as l.
  intros l. revert st. induction l as [|[k c] l IH]; intros st W; simpl; auto.
  apply IH. destruct (is_empty_chat c); auto.
  destruct W. split; simpl; auto using jsmap_wf_delete.
Qed.

Lemma wf_step now e st : wf_server st -> wf_server (fst (step now e st)).
Proof.
  intros W. pose proof W as [Wu Wc Wm].
  destruct e; simpl; auto.
  - unfold connection. destruct (existsb _ _); auto. now split.
  - apply wf_socket_join. split; simpl; auto using jsmap_wf_set.
  - unfold send_message.
    set (st1 := if negb _ then _ else _).
    assert (W1 : wf_server st1).
    { subst st1. destruct (negb _); auto. split; simpl; auto using jsmap_wf_set. }
    assert (W2 : wf_server (with_messages (push_message messageData) st1)).
    { destruct W1. split; simpl; auto. unfold push_message.
      destruct (JSMap.get _ _); auto using jsmap_wf_set. }
    destruct (JSMap.get _ _); auto.
  - split; simpl; auto using jsmap_wf_set.
  - unfold join_chat. destruct (JSMap.get chatId (chats st)); auto.
    destruct (negb _); auto. split; simpl; auto using jsmap_wf_set.
  - unfold leave_chat. destruct (JSMap.get chatId (chats st)); auto.
    split; simpl; auto using jsmap_wf_set.
  - unfold mark_as_read. destruct (JSMap.get chatId (chats st)); auto.
  - unfold typing. destruct (JSMap.get chatId (chats st)); auto.
  - unfold disconnect.
    destruct (find _ _) as [[k u]|]; simpl; split; simpl;
      auto using jsmap_wf_set.
  - unfold cleanup. apply wf_cleanup_chats. split; simpl; auto.
    unfold JSMap.delete_where, JSMap.entries.
    rewrite jsmap_delete_where_fold. now apply jsmap_wf_filter.
Qed.

Lemma wf_run tr : forall st, wf_server st -> wf_server (fst (run tr st)).
Proof.
  induction tr as [|[now e] tr IH]; intros st W; simpl; auto.
  pose proof (wf_step now e st W) as W1.
  destruct (step now e st) as [st1 out1]. simpl in W1.
  specialize (IH st1 W1). destruct (run tr st1). auto.
Qed.

Lemma wf_state_after tr : wf_server (state_after tr).
Proof. apply wf_run, wf_init. Qed.

(** ** Creating a chat *)

Lemma create_chat_stores sock d now st :
  JSMap.get (cd_id d) (chats (fst (create_chat sock d now st)))
    = Some (newChat d now)
  /\ JSMap.get (cd_id d) (messages (fst (create_chat sock d now st))) = Some [].
Proof. simpl. split; apply jsmap_get_set_eq. Qed.

Lemma emit_to_each_nil ev st : emit_to_each [] ev st = [].
Proof. reflexivity. Qed.

(** C1, as stated, fails: a request with no participant is stored with an
    empty log, and so is one whose id is already taken. *)
Lemma create_chat_accepts_invalid :
  let st := state_after Scenario.setup in
  (cd_participants Scenario.nobody = []
   /\ JSMap.get "c2" (chats (fst (create_chat "s1" Scenario.nobody 9 st)))
      = Some (newChat Scenario.nobody 9)
   /\ JSMap.get "c2" (messages (fst (create_chat "s1" Scenario.nobody 9 st)))
      = Some [])
  /\ (JSMap.has "c1" (chats st) = true
      /\ JSMap.get "c1" (chats (fst (create_chat "s2" Scenario.c1_again 9 st)))
         = Some (newChat Scenario.c1_again 9)
      /\ JSMap.get "c1" (chats (fst (create_chat "s2" Scenario.c1_again 9 st)))
         <> JSMap.get "c1" (chats st)).
Proof. vm_compute. repeat split; discriminate. Qed.

(** C1 (amended): a create-chat request whose id is already in the
    directory, or whose participant list is empty, does not fail: the chat
    built from the request is stored under its id, an empty log is stored for
    that id, and with no participant nobody is notified. *)
Theorem create_chat_never_rejects sock d now st :
  JSMap.has (cd_id d) (chats st) = true \/ cd_participants d = [] ->
  let st' := fst (create_chat sock d now st) in
  JSMap.get (cd_id d) (chats st') = Some (newChat d now)
  /\ JSMap.get (cd_id d) (messages st') = Some []
  /\ (cd_participants d = [] -> snd (create_chat sock d now st) = []).
Proof.
  intros _ st'. subst st'.
  destruct (create_chat_stores sock d now st) as [Hc Hm].
  repeat split; auto.
  intros E. simpl. now rewrite E.
Qed.

Lemma create_chat_never_rejects_witness :
  let st := state_after Scenario.setup in
  let st' := fst (create_chat "s1" Scenario.nobody 9 st) in
  JSMap.get "c2" (chats st') = Some (newChat Scenario.nobody 9)
  /\ JSMap.get "c2" (messages st') = Some []
  /\ (cd_participants Scenario.nobody = []
      -> snd (create_chat "s1" Scenario.nobody 9 st) = []).
Proof.
  apply (create_chat_never_rejects "s1" Scenario.nobody 9
           (state_after Scenario.setup)).
  right. reflexivity.
Defined.

Lemma jsmap_keys_set_present {V} k (v : V) m :
  JSMap.has k m = true -> JSMap.keys (JSMap.set k v m) = JSMap.keys m.
Proof. intros H. now rewrite jsmap_keys_set, H. Qed.

(** C10: a create-chat request that reuses the id of an existing chat
    overwrites that chat, in place, with the data of the request: the stored
    chat has the id, type, name, description and participant list of the
    request, its creator as owner, the admins of the request (the creator
    alone when the request names none) and the current time as creation
    time. Its log is replaced by an empty one: whatever was stored for the id,
    [get-messages] now answers the empty list. *)
Theorem create_chat_overwrites sock d now st old :
  JSMap.get (cd_id d) (chats st) = Some old ->
  let st' := fst (create_chat sock d now st) in
  (exists chat,
      JSMap.get (cd_id d) (chats st') = Some chat
      /\ c_id chat = cd_id d
      /\ c_type chat = cd_type d
      /\ c_name chat = cd_name d
      /\ c_description chat = cd_description d
      /\ c_participants chat = cd_participants d
      /\ c_admins chat = match cd_admins d with
                         | Some admins => admins
                         | None => [cd_creatorId d]
                         end
      /\ c_owner chat = cd_creatorId d
      /\ c_createdAt chat = now)
  /\ JSMap.keys (chats st') = JSMap.keys (chats st)
  /\ JSMap.get (cd_id d) (messages st') = Some []
  /\ get_messages (cd_id d) st' = [].
Proof.
  intros H st'. subst st'.
  destruct (create_chat_stores sock d now st) as [Hc Hm].
  split; [|split; [|split]].
  - exists (newChat d now). split; [exact Hc|]. repeat split.
  - simpl. apply jsmap_keys_set_present. unfold JSMap.has. now rewrite H.
  - exact Hm.
  - unfold get_messages. now rewrite Hm.
Qed.

Lemma create_chat_overwrites_witness :
  get_messages "c1" (state_after Scenario.chatting) = [Scenario.hi]
  /\ let st' := fst (create_chat "s2" Scenario.c1_again 9
                       (state_after Scenario.chatting)) in
     (exists chat,
         JSMap.get "c1" (chats st') = Some chat
         /\ c_id chat = "c1"
         /\ c_type chat = "direct"
         /\ c_name chat = "Again"
         /\ c_description chat = EmptyString
         /\ c_participants chat = ["bob"]
         /\ c_admins chat = []
         /\ c_owner chat = "bob"
         /\ c_createdAt chat = 9%Z)
     /\ JSMap.keys (chats st') = JSMap.keys (chats (state_after Scenario.chatting))
     /\ JSMap.get "c1" (messages st') = Some []
     /\ get_messages "c1" st' = [].
Proof.
  split; [reflexivity|].
  apply (create_chat_overwrites "s2" Scenario.c1_again 9
           (state_after Scenario.chatting) (newChat Scenario.c1 4)).
  reflexivity.
Defined.

(** ** Sending and reading messages *)

Lemma send_message_state sock m st :
  fst (send_message sock m st)
  = with_messages (push_message m)
      (if negb (JSMap.has (md_chatId m) (messages st))
       then with_messages (JSMap.set (md_chatId m) []) st else st).
Proof. unfold send_message. now destruct (JSMap.get _ (chats _)). Qed.

Lemma send_message_log sock m st c :
  JSMap.get c (messages (fst (send_message sock m st)))
  = if String.eqb c (md_chatId m)
    then Some (get_messages (md_chatId m) st ++ [m])
    else JSMap.get c (messages st).
Proof.
  rewrite send_message_state. unfold get_messages, JSMap.has, push_message.
  destruct (JSMap.get (md_chatId m) (messages st)) as [log|] eqn:E; simpl.
  - rewrite E, jsmap_get_set. now destruct (String.eqb c (md_chatId m)).
  - rewrite jsmap_get_set_eq, !jsmap_get_set.
    now destruct (String.eqb c (md_chatId m)).
Qed.

Lemma send_message_history sock m st c :
  get_messages c (fst (send_message sock m st))
  = get_messages c st ++ (if String.eqb (md_chatId m) c then [m] else []).
Proof.
  unfold get_messages at 1. rewrite send_message_log, (String.eqb_sym c).
  destruct (String.eqb (md_chatId m) c) eqn:E.
  - apply String.eqb_eq in E. now subst c.
  - unfold get_messages. destruct (JSMap.get c (messages st)); now rewrite ?app_nil_r.
Qed.

Lemma send_message_other_stores sock m st :
  users (fst (send_message sock m st)) = users st
  /\ chats (fst (send_message sock m st)) = chats st
  /\ onlineUsers (fst (send_message sock m st)) = onlineUsers st
  /\ sockets (fst (send_message sock m st)) = sockets st
  /\ rooms (fst (send_message sock m st)) = rooms st.
Proof.
  rewrite send_message_state.
  destruct (negb (JSMap.has (md_chatId m) (messages st))); simpl; auto.
Qed.

(** C3, as stated, fails: a message for a chat id that has neither a chat
    nor a log is stored, in a log made for it on the spot. *)
Lemma send_message_creates_log :
  let st := state_after Scenario.setup in
  JSMap.get "ghost" (chats st) = None
  /\ JSMap.get "ghost" (messages st) = None
  /\ JSMap.get "ghost" (messages (fst (send_message "s2" Scenario.stray st)))
     = Some [Scenario.stray].
Proof. vm_compute. auto. Qed.

(** C3 (amended): a send-message naming a chat id that has no log does not
    fail: the handler creates an empty log for the id and appends the message
    to it, so the log then holds exactly that message; the directory and the
    registry are left as they were, and when the chat is unknown too nobody
    is notified. *)
Theorem send_message_unknown_chat sock m st :
  JSMap.get (md_chatId m) (messages st) = None ->
  let st' := fst (send_message sock m st) in
  JSMap.get (md_chatId m) (messages st') = Some [m]
  /\ get_messages (md_chatId m) st' = [m]
  /\ chats st' = chats st
  /\ users st' = users st
  /\ (JSMap.get (md_chatId m) (chats st) = None ->
      snd (send_message sock m st) = []).
Proof.
  intros H st'. subst st'.
  assert (G : JSMap.get (md_chatId m) (messages (fst (send_message sock m st)))
              = Some [m]).
  { rewrite send_message_log, String.eqb_refl. unfold get_messages. now rewrite H. }
  destruct (send_message_other_stores sock m st) as (Hu & Hc & _).
  split; [exact G|]. split; [unfold get_messages; now rewrite G|].
  split; [exact Hc|]. split; [exact Hu|].
  intros N. rewrite send_message_state in Hc. unfold send_message.
  now rewrite Hc, N.
Qed.

Lemma send_message_unknown_chat_witness :
  let st' := fst (send_message "s2" Scenario.stray (state_after Scenario.setup)) in
  JSMap.get "ghost" (messages st') = Some [Scenario.stray]
  /\ get_messages "ghost" st' = [Scenario.stray]
  /\ chats st' = chats (state_after Scenario.setup)
  /\ users st' = users (state_after Scenario.setup)
  /\ (JSMap.get "ghost" (chats (state_after Scenario.setup)) = None ->
      snd (send_message "s2" Scenario.stray (state_after Scenario.setup)) = []).
Proof.
  apply (send_message_unknown_chat "s2" Scenario.stray
           (state_after Scenario.setup)).
  reflexivity.
Defined.

Lemma socket_join_stores s r st :
  users (socket_join s r st) = users st
  /\ chats (socket_join s r st) = chats st
  /\ messages (socket_join s r st) = messages st
  /\ onlineUsers (socket_join s r st) = onlineUsers st
  /\ sockets (socket_join s r st) = sockets st.
Proof. unfold socket_join. destruct (in_room r s st); simpl; auto. Qed.

(** ** Fan-out *)

Lemma in_io_to_emit s ev r ev' st :
  In (s, ev) (io_to_emit r ev' st) <-> ev = ev' /\ In s (sockets_in r st).
Proof.
  unfold io_to_emit. rewrite in_map_iff. split.
  - intros [x [[= <- <-] Hin]]. auto.
  - intros [-> Hin]. now exists s.
Qed.

Lemma in_emit_to_each s ev ps ev' st :
  In (s, ev) (emit_to_each ps ev' st)
  <-> ev = ev' /\ exists p, In p ps /\ In s (sockets_in (user_room p) st).
Proof.
  unfold emit_to_each. rewrite in_flat_map. split.
  - intros [p [Hp Hin]]. apply in_io_to_emit in Hin. destruct Hin. eauto.
  - intros [-> [p [Hp Hin]]]. exists p. split; auto. now apply in_io_to_emit.
Qed.

Lemma in_emit_to_others s ev ps u ev' st :
  In (s, ev) (emit_to_others ps u ev' st)
  <-> ev = ev'
      /\ exists p, In p ps /\ p <> u /\ In s (sockets_in (user_room p) st).
Proof.
  unfold emit_to_others. rewrite in_flat_map. split.
  - intros [p [Hp Hin]]. destruct (String.eqb p u) eqn:E; simpl in Hin; [tauto|].
    apply String.eqb_neq in E. apply in_io_to_emit in Hin. destruct Hin. eauto.
  - intros [-> [p [Hp [N Hin]]]]. exists p. split; auto.
    apply String.eqb_neq in N. rewrite N. simpl. now apply in_io_to_emit.
Qed.

Lemma emit_to_each_rooms ps ev st st' :
  rooms st = rooms st' -> emit_to_each ps ev st = emit_to_each ps ev st'.
Proof.
  intros E. unfold emit_to_each, io_to_emit, sockets_in. now rewrite E.
Qed.

Lemma send_message_out sock m st chat :
  JSMap.get (md_chatId m) (chats st) = Some chat ->
  snd (send_message sock m st)
  = emit_to_each (c_participants chat) (NewMessage m) st.
Proof.
  intros H. pose proof (send_message_other_stores sock m st) as (_ & Hc & _ & _ & Hr).
  rewrite send_message_state in Hc, Hr. unfold send_message.
  rewrite Hc, H. simpl. now apply emit_to_each_rooms.
Qed.

(** C2, as stated, fails: alice sends "hi" to c1 from her socket s1, and
    s1 is handed the new-message event along with bob's socket s2. *)
Lemma send_message_echoes_to_sender :
  let st := state_after Scenario.setup in
  connection_of (md_senderId Scenario.hi) st = Some "s1"
  /\ snd (send_message "s1" Scenario.hi st)
     = [("s1", NewMessage Scenario.hi); ("s2", NewMessage Scenario.hi)].
Proof. vm_compute. auto. Qed.

(** C2 (amended): a send-message on an existing chat hands the new-message
    event to exactly the sockets joined to the personal room of a
    participant of that chat; the sender is not left out: the socket the
    message came from receives the event too when it is joined to the room
    of a participant. *)
Theorem send_message_fanout sock m st chat :
  JSMap.get (md_chatId m) (chats st) = Some chat ->
  (forall s ev,
      In (s, ev) (snd (send_message sock m st))
      <-> ev = NewMessage m
          /\ exists p, In p (c_participants chat)
                       /\ In s (sockets_in (user_room p) st))
  /\ (forall p, In p (c_participants chat) ->
                In sock (sockets_in (user_room p) st) ->
                In (sock, NewMessage m) (snd (send_message sock m st))).
Proof.
  intros H. rewrite (send_message_out sock m st chat H). split.
  - intros s ev. apply in_emit_to_each.
  - intros p Hp Hs. apply in_emit_to_each. eauto.
Qed.

Lemma send_message_fanout_witness :
  In ("s1", NewMessage Scenario.hi)
     (snd (send_message "s1" Scenario.hi (state_after Scenario.setup))).
Proof.
  apply (send_message_fanout "s1" Scenario.hi (state_after Scenario.setup)
           (newChat Scenario.c1 4) eq_refl) with (p := "alice");
    simpl; auto.
Defined.

(** *** Coming online twice *)

Lemma in_room_sockets_in r s st :
  in_room r s st = true <-> In s (sockets_in r st).
Proof.
  unfold in_room, sockets_in. rewrite existsb_exists, in_map_iff. split.
  - intros [[r' s'] [Hin H]]. simpl in H. apply andb_prop in H.
    destruct H as [H1 H2]. apply String.eqb_eq in H2. subst s'.
    exists (r', s). split; auto. apply filter_In. auto.
  - intros [[r' s'] [<- Hin]]. apply filter_In in Hin. destruct Hin as [Hin H].
    exists (r', s'). simpl in *. now rewrite H, String.eqb_refl.
Qed.

Lemma socket_join_in s r st : In s (sockets_in r (socket_join s r st)).
Proof.
  unfold socket_join. destruct (in_room r s st) eqn:E.
  - now apply in_room_sockets_in.
  - unfold sockets_in. simpl. rewrite filter_app, map_app. apply in_or_app.
    right. simpl. rewrite String.eqb_refl. now left.
Qed.

Lemma socket_join_keeps s r st s' r' :
  In s' (sockets_in r' st) -> In s' (sockets_in r' (socket_join s r st)).
Proof.
  unfold socket_join. destruct (in_room r s st); auto.
  unfold sockets_in. simpl. rewrite filter_app, map_app. intros H.
  apply in_or_app. now left.
Qed.

Lemma user_online_rooms sock d now st :
  rooms (fst (user_online sock d now st))
  = rooms (socket_join sock (user_room (ud_userId d)) st).
Proof.
  unfold user_online, socket_join, in_room. simpl.
  now destruct (existsb _ _).
Qed.

Lemma sockets_in_rooms r st st' :
  rooms st = rooms st' -> sockets_in r st = sockets_in r st'.
Proof. unfold sockets_in. now intros ->. Qed.

Lemma user_online_joins sock d now st :
  In sock (sockets_in (user_room (ud_userId d)) (fst (user_online sock d now st)))
  /\ (forall s r, In s (sockets_in r st) ->
                  In s (sockets_in r (fst (user_online sock d now st)))).
Proof.
  split; [|intros s r H];
    rewrite (sockets_in_rooms _ _ _ (user_online_rooms sock d now st)).
  - apply socket_join_in.
  - now apply socket_join_keeps.
Qed.

Lemma user_online_connection sock d now st :
  connection_of (ud_userId d) (fst (user_online sock d now st)) = Some sock.
Proof.
  unfold connection_of, user_online. simpl.
  destruct (socket_join_stores sock (user_room (ud_userId d))
    (with_onlineUsers (JSSet.add (ud_userId d))
       (with_users (JSMap.set (ud_userId d)
          (mkUser (ud_userId d) sock (ud_username d) (ud_displayName d) true now))
          st))) as (-> & _).
  simpl. now rewrite jsmap_get_set_eq.
Qed.

(** C4, as stated, fails: alice comes online on s1 and then on s3; the
    registry records s3, and a message bob sends to their chat is still
    handed to s1. *)
Lemma superseded_socket_still_served :
  let st := state_after Scenario.twice in
  connection_of "alice" st = Some "s3"
  /\ In ("s1", NewMessage Scenario.hello)
        (snd (send_message "s2" Scenario.hello st)).
Proof. vm_compute. auto. Qed.

(** C4 (amended): after user [u] comes online on socket [c1] and then on
    socket [c2], the connection recorded for [u] is [c2]; [c1] is not taken
    out of the personal room of [u], so an event sent to that room, and a
    fan-out to the participants of a chat [u] belongs to, reaches [c1] as
    well as [c2]. *)
Theorem user_online_supersedes st u c1 c2 n1 d1 n2 d2 t1 t2 :
  let st1 := fst (user_online c1 (mkUserData u n1 d1) t1 st) in
  let st2 := fst (user_online c2 (mkUserData u n2 d2) t2 st1) in
  connection_of u st2 = Some c2
  /\ In c1 (sockets_in (user_room u) st2)
  /\ In c2 (sockets_in (user_room u) st2)
  /\ (forall ev, In (c1, ev) (io_to_emit (user_room u) ev st2))
  /\ (forall ps ev, In u ps -> In (c1, ev) (emit_to_each ps ev st2)
                               /\ In (c2, ev) (emit_to_each ps ev st2)).
Proof.
  intros st1 st2.
  assert (H1 : In c1 (sockets_in (user_room u) st2)).
  { apply (proj2 (user_online_joins c2 (mkUserData u n2 d2) t2 st1)).
    exact (proj1 (user_online_joins c1 (mkUserData u n1 d1) t1 st)). }
  assert (H2 : In c2 (sockets_in (user_room u) st2)).
  { exact (proj1 (user_online_joins c2 (mkUserData u n2 d2) t2 st1)). }
  split; [apply (user_online_connection c2 (mkUserData u n2 d2) t2 st1)|].
  split; [exact H1|]. split; [exact H2|]. split.
  - intros ev. now apply in_io_to_emit.
  - intros ps ev Hu. split; apply in_emit_to_each; split; auto; exists u; auto.
Qed.

Lemma user_online_supersedes_witness :
  In ("s1", NewMessage Scenario.hello)
     (emit_to_each ["alice"; "bob"] (NewMessage Scenario.hello)
        (fst (user_online "s3" Scenario.alice 6
                (fst (user_online "s1" Scenario.alice 2 init))))).
Proof.
  apply (user_online_supersedes init "alice" "s1" "s3" "alice" "Alice"
           "alice" "Alice" 2 6).
  simpl. auto.
Defined.

(** *** Read receipts *)

(** C5, as stated, fails: c1 holds the message m1, and after bob, or after
    anyone else, marks it as read the server state is what it was: nothing
    stored records who read the message. *)
Lemma mark_as_read_records_nothing :
  let st := state_after Scenario.chatting in
  JSMap.has "c1" (chats st) = true
  /\ get_messages "c1" st = [Scenario.hi]
  /\ md_id Scenario.hi = "m1"
  /\ fst (mark_as_read "s2" "c1" "bob" "m1" st) = st
  /\ fst (mark_as_read "s2" "c1" "bob" "m1" st)
     = fst (mark_as_read "s1" "c1" "carol" "m1" st)
  /\ get_messages "c1" (fst (mark_as_read "s2" "c1" "bob" "m1" st))
     = [Scenario.hi].
Proof. vm_compute. auto 10. Qed.

(** C5 (amended): mark-as-read stores nothing: the server state, and so
    every stored message, is left as it was. For an existing chat the
    handler hands a message-read event naming the chat, the message and the
    reader to exactly the sockets in the personal rooms of the participants
    other than the reader, whether or not the message exists; for an unknown
    chat it does nothing. *)
Theorem mark_as_read_only_notifies sock chatId userId messageId st :
  fst (mark_as_read sock chatId userId messageId st) = st
  /\ (JSMap.get chatId (chats st) = None ->
      snd (mark_as_read sock chatId userId messageId st) = [])
  /\ (forall chat, JSMap.get chatId (chats st) = Some chat ->
      forall s ev,
        In (s, ev) (snd (mark_as_read sock chatId userId messageId st))
        <-> ev = MessageRead chatId messageId userId
            /\ exists p, In p (c_participants chat) /\ p <> userId
                         /\ In s (sockets_in (user_room p) st)).
Proof.
  unfold mark_as_read. destruct (JSMap.get chatId (chats st)) as [chat|].
  - split; [reflexivity|]. split; [discriminate|].
    intros chat' [= <-] s ev. apply in_emit_to_others.
  - split; [reflexivity|]. split; [reflexivity|]. discriminate.
Qed.

Lemma mark_as_read_only_notifies_witness :
  let st := state_after Scenario.chatting in
  fst (mark_as_read "s2" "c1" "bob" "m1" st) = st
  /\ snd (mark_as_read "s2" "ghost" "bob" "m1" st) = []
  /\ In ("s1", MessageRead "c1" "m1" "bob")
        (snd (mark_as_read "s2" "c1" "bob" "m1" st)).
Proof.
  intros st.
  destruct (mark_as_read_only_notifies "s2" "c1" "bob" "m1" st) as (H1 & _ & H3).
  destruct (mark_as_read_only_notifies "s2" "ghost" "bob" "m1" st) as (_ & H2 & _).
  split; [exact H1 | split; [apply H2; reflexivity|]].
  apply (H3 (newChat Scenario.c1 4) eq_refl). split; auto.
  exists "alice". simpl. repeat split; auto. discriminate.
Defined.

(** ** Membership *)

Lemma jsmap_set_same {V} k (v : V) m :
  JSMap.get k m = Some v -> JSMap.set k v m = m.
Proof.
  induction m as [|[k' v'] r IH]; simpl; [discriminate|].
  destruct (String.eqb k k') eqn:E.
  - apply String.eqb_eq in E. subst. now intros [= ->].
  - intros H. now rewrite IH.
Qed.

Lemma arr_includes_In x l : arr_includes x l = true <-> In x l.
Proof.
  unfold arr_includes. rewrite existsb_exists. split.
  - intros [y [Hin E]]. apply String.eqb_eq in E. now subst.
  - intros H. exists x. now rewrite String.eqb_refl.
Qed.

Lemma filter_out_absent (u : UserId) ps :
  ~ In u ps -> filter (fun p => negb (String.eqb p u)) ps = ps.
Proof.
  induction ps as [|p ps IH]; simpl; auto.
  intros H. destruct (String.eqb p u) eqn:E; simpl.
  - apply String.eqb_eq in E. tauto.
  - rewrite IH; tauto.
Qed.

Lemma set_participants_same chat : set_participants (c_participants chat) chat = chat.
Proof. now destruct chat. Qed.

Lemma leave_chat_non_member sock c u st chat :
  JSMap.get c (chats st) = Some chat ->
  ~ In u (c_participants chat) ->
  fst (leave_chat sock c u st) = st.
Proof.
  intros H N. unfold leave_chat. rewrite H. simpl.
  rewrite (filter_out_absent u _ N), set_participants_same.
  unfold with_chats. rewrite (jsmap_set_same _ _ _ H). now destruct st.
Qed.

Lemma leave_chat_unknown sock c u st :
  JSMap.get c (chats st) = None -> leave_chat sock c u st = (st, []).
Proof. intros H. unfold leave_chat. now rewrite H. Qed.

Lemma join_chat_unknown sock c u st :
  JSMap.get c (chats st) = None -> join_chat sock c u st = (st, []).
Proof. intros H. unfold join_chat. now rewrite H. Qed.

Lemma join_chat_member sock c u st chat :
  JSMap.get c (chats st) = Some chat ->
  In u (c_participants chat) ->
  join_chat sock c u st = (st, []).
Proof.
  intros H Hin. unfold join_chat. rewrite H.
  apply arr_includes_In in Hin. now rewrite Hin.
Qed.

(** A membership event keeps a duplicate-free participant list
    duplicate-free, and keeps the chat in the directory. *)
Lemma membership_step_nodup now e st c chat :
  is_membership e = true ->
  JSMap.get c (chats st) = Some chat ->
  NoDup (c_participants chat) ->
  exists chat',
    JSMap.get c (chats (fst (step now e st))) = Some chat'
    /\ NoDup (c_participants chat').
Proof.
  intros M H D. destruct e; try discriminate; cbn [step].
  - unfold join_chat.
    destruct (JSMap.get chatId (chats st)) as [chat0|] eqn:E; [|eauto].
    destruct (arr_includes userId (c_participants chat0)) eqn:I; simpl; [eauto|].
    rewrite jsmap_get_set. destruct (String.eqb c chatId) eqn:F; [|eauto].
    apply String.eqb_eq in F. subst chatId.
    assert (chat0 = chat) by congruence. subst chat0.
    eexists. split; [reflexivity|]. simpl. apply NoDup_app; auto.
    + repeat constructor. simpl. tauto.
    + intros a Ha [<- | []]. apply arr_includes_In in Ha. congruence.
  - unfold leave_chat.
    destruct (JSMap.get chatId (chats st)) as [chat0|] eqn:E; [|eauto].
    simpl. rewrite jsmap_get_set. destruct (String.eqb c chatId) eqn:F; [|eauto].
    apply String.eqb_eq in F. subst chatId.
    assert (chat0 = chat) by congruence. subst chat0.
    eexists. split; [reflexivity|]. simpl. now apply NoDup_filter.
Qed.

(** C6, as stated, fails: create-chat stores the participant list of the
    request as it comes, so a chat created with alice listed twice still
    lists her twice after bob joins. *)
Lemma join_keeps_duplicates :
  exists chat,
    JSMap.get "c3" (chats (state_after Scenario.doubled_then_join)) = Some chat
    /\ c_participants chat = ["alice"; "alice"; "bob"]
    /\ ~ NoDup (c_participants chat).
Proof.
  eexists. split; [reflexivity|]. split; [reflexivity|].
  simpl. intros H. apply NoDup_cons_iff in H. simpl in H. tauto.
Qed.

(** C6 (amended): join-chat and leave-chat never introduce a duplicate:
    a chat whose participant list holds no id twice when a sequence of
    join-chat and leave-chat events starts is still in the directory, with no
    id twice, afterwards. A leave-chat naming a user who is not a
    participant, or an unknown chat, leaves the state as it was; a join-chat
    naming an unknown chat, or a user who is already a participant, leaves
    the state as it was and notifies nobody. *)
Theorem join_leave_keep_participants_unique st :
  (forall tr c chat,
      Forall (fun te => is_membership (snd te) = true) tr ->
      JSMap.get c (chats st) = Some chat ->
      NoDup (c_participants chat) ->
      exists chat',
        JSMap.get c (chats (fst (run tr st))) = Some chat'
        /\ NoDup (c_participants chat'))
  /\ (forall sock c u chat,
        JSMap.get c (chats st) = Some chat -> ~ In u (c_participants chat) ->
        fst (leave_chat sock c u st) = st)
  /\ (forall sock c u,
        JSMap.get c (chats st) = None -> leave_chat sock c u st = (st, []))
  /\ (forall sock c u,
        JSMap.get c (chats st) = None -> join_chat sock c u st = (st, []))
  /\ (forall sock c u chat,
        JSMap.get c (chats st) = Some chat -> In u (c_participants chat) ->
        join_chat sock c u st = (st, [])).
Proof.
  split; [|split; [|split; [|split]]].
  - intros tr. revert st.
    induction tr as [|[now e] tr IH]; intros st c chat M H D; simpl; eauto.
    inversion M as [|? ? Me Mtr]; subst. simpl in Me.
    destruct (membership_step_nodup now e st c chat Me H D) as [chat1 [H1 D1]].
    destruct (step now e st) as [st1 out1]. simpl in H1.
    destruct (IH st1 c chat1 Mtr H1 D1) as [chat2 [H2 D2]].
    destruct (run tr st1). simpl in *. eauto.
  - intros sock c u chat. apply leave_chat_non_member.
  - intros sock c u. apply leave_chat_unknown.
  - intros sock c u. apply join_chat_unknown.
  - intros sock c u chat. apply join_chat_member.
Qed.

Lemma join_leave_keep_participants_unique_witness :
  let st := fst (create_chat "s1" Scenario.doubled 5 (state_after Scenario.setup)) in
  (exists chat',
      JSMap.get "c1"
        (chats (fst (run [(6%Z, EvJoinChat "s1" "c1" "carol");
                          (7%Z, EvJoinChat "s1" "c1" "carol");
                          (8%Z, EvLeaveChat "s2" "c1" "bob")] st))) = Some chat'
      /\ NoDup (c_participants chat'))
  /\ fst (leave_chat "s1" "c1" "dave" st) = st
  /\ join_chat "s1" "c1" "bob" st = (st, []).
Proof.
  intros st.
  destruct (join_leave_keep_participants_unique st) as (H1 & H2 & _ & _ & H5).
  split; [|split].
  - apply (H1 _ "c1" (newChat Scenario.c1 4)).
    + repeat constructor.
    + reflexivity.
    + simpl. repeat constructor; simpl; intuition discriminate.
  - apply (H2 "s1" "c1" "dave" (newChat Scenario.c1 4) eq_refl).
    simpl. intuition discriminate.
  - apply (H5 "s1" "c1" "bob" (newChat Scenario.c1 4) eq_refl).
    simpl. auto.
Defined.

(** ** The cleanup *)

Lemma inactive_spec now user :
  inactive now user = true
  <-> u_isOnline user = false /\ (now - u_lastSeen user > 600000)%Z.
Proof.
  unfold inactive, timeout. rewrite andb_true_iff, negb_true_iff, Z.ltb_lt.
  split; intros [H1 H2]; split; auto; lia.
Qed.

Lemma is_empty_chat_spec chat : is_empty_chat chat = true <-> c_participants chat = [].
Proof.
  unfold is_empty_chat. rewrite Nat.eqb_eq. apply length_zero_iff_nil.
Qed.

(** The key [c] heads an entry of [m] that passes [cond]. *)
Lemma jsmap_exists_key {W} (cond : W -> bool) c (m : JSMap.t W) :
  JSMap.wf m ->
  existsb (fun kv => cond (snd kv) && String.eqb (fst kv) c) m
  = match JSMap.get c m with Some w => cond w | None => false end.
Proof.
  unfold JSMap.wf, JSMap.keys. induction m as [|[k w] r IH]; simpl; auto.
  intros W0. inversion W0 as [|? ? Hn Hr]; subst.
  rewrite IH by assumption. rewrite (String.eqb_sym c k).
  destruct (String.eqb k c) eqn:E.
  - apply String.eqb_eq in E. subst k.
    apply jsmap_get_none_not_in in Hn. rewrite Hn.
    now rewrite andb_true_r, orb_false_r.
  - now rewrite andb_false_r.
Qed.

Lemma cleanup_chats_fold (l : list (string * Chat)) st :
  let del := fun V (a : JSMap.t V) (kv : string * Chat) =>
               if is_empty_chat (snd kv) then JSMap.delete (fst kv) a else a in
  fold_left
    (fun acc kv =>
       if is_empty_chat (snd kv)
       then with_messages (JSMap.delete (fst kv))
              (with_chats (JSMap.delete (fst kv)) acc)
       else acc) l st
  = mkServer (users st) (fold_left (del Chat) l (chats st))
             (fold_left (del (list MessageData)) l (messages st))
             (onlineUsers st) (sockets st) (rooms st).
Proof.
  intros del. revert st. induction l as [|[k c] l IH]; intros st; simpl.
  - now destruct st.
  - rewrite IH. subst del. simpl. now destruct (is_empty_chat c).
Qed.

(** The sweep keeps, in their order, the users that are not inactive, the
    chats that have a participant and the logs that do not belong to a
    deleted chat. *)
Lemma cleanup_filter now st :
  wf_server st ->
  cleanup now st
  = mkServer
      (filter (fun kv => negb (inactive now (snd kv))) (users st))
      (filter (fun kv => negb (is_empty_chat (snd kv))) (chats st))
      (filter (fun kv => negb (match JSMap.get (fst kv) (chats st) with
                               | Some chat => is_empty_chat chat
                               | None => false
                               end)) (messages st))
      (onlineUsers st) (sockets st) (rooms st).
Proof.
  intros [Wu Wc Wm]. unfold cleanup, cleanup_chats.
  rewrite cleanup_chats_fold. simpl. f_equal.
  - now apply jsmap_delete_where_filter.
  - now apply (jsmap_delete_where_filter is_empty_chat).
  - unfold JSMap.entries. rewrite jsmap_delete_where_fold.
    apply filter_ext. intros [k log]. simpl. f_equal.
    now apply jsmap_exists_key.
Qed.

(** C8: a sweep at time [now] deletes from the registry exactly the users
    that are offline and were last seen more than 600000 ms before [now],
    deletes exactly the chats with no participant, each with its log, and
    changes nothing else: the other users, chats and logs, the online set
    and the rooms stay as they are, so a chat that survives still lists every
    participant it had, reaped or not. *)
Theorem cleanup_exact now st :
  wf_server st ->
  let st' := cleanup now st in
  (forall u, JSMap.get u (users st')
             = match JSMap.get u (users st) with
               | Some user => if inactive now user then None else Some user
               | None => None
               end)
  /\ (forall c, JSMap.get c (chats st')
                = match JSMap.get c (chats st) with
                  | Some chat => if is_empty_chat chat then None else Some chat
                  | None => None
                  end)
  /\ (forall c, JSMap.get c (messages st')
                = match JSMap.get c (chats st) with
                  | Some chat => if is_empty_chat chat then None
                                 else JSMap.get c (messages st)
                  | None => JSMap.get c (messages st)
                  end)
  /\ onlineUsers st' = onlineUsers st
  /\ sockets st' = sockets st
  /\ rooms st' = rooms st
  /\ (forall user, inactive now user = true
                   <-> u_isOnline user = false
                       /\ (now - u_lastSeen user > 600000)%Z)
  /\ (forall chat, is_empty_chat chat = true <-> c_participants chat = [])
  /\ (forall c chat u, JSMap.get c (chats st) = Some chat ->
                       In u (c_participants chat) ->
                       JSMap.get c (chats st') = Some chat).
Proof.
  intros W st'. subst st'. rewrite (cleanup_filter now st W).
  destruct W as [Wu Wc Wm]. simpl.
  assert (Hc : forall c, JSMap.get c
                 (filter (fun kv => negb (is_empty_chat (snd kv))) (chats st))
               = match JSMap.get c (chats st) with
                 | Some chat => if is_empty_chat chat then None else Some chat
                 | None => None
                 end).
  { intros c. rewrite jsmap_get_filter by assumption.
    destruct (JSMap.get c (chats st)) as [chat|]; simpl; auto.
    now destruct (is_empty_chat chat). }
  split; [|split; [exact Hc|split]].
  - intros u. rewrite jsmap_get_filter by assumption.
    destruct (JSMap.get u (users st)) as [user|]; simpl; auto.
    now destruct (inactive now user).
  - intros c. rewrite jsmap_get_filter by assumption. simpl.
    destruct (JSMap.get c (chats st)) as [chat|]; simpl.
    + destruct (is_empty_chat chat); simpl; now destruct (JSMap.get c (messages st)).
    + now destruct (JSMap.get c (messages st)).
  - do 3 (split; [reflexivity|]).
    split; [intros user; apply inactive_spec|].
    split; [intros chat; apply is_empty_chat_spec|].
    intros c chat u H Hin. rewrite Hc, H.
    destruct (is_empty_chat chat) eqn:E; auto.
    apply is_empty_chat_spec in E. rewrite E in Hin. destruct Hin.
Qed.

Lemma cleanup_exact_witness :
  let st := state_after Scenario.bob_gone in
  let st' := cleanup Scenario.sweep_time st in
  JSMap.get "bob" (users st) <> None
  /\ JSMap.get "bob" (users st') = None
  /\ JSMap.get "alice" (users st') = JSMap.get "alice" (users st)
  /\ JSMap.get "c1" (chats st') = Some (newChat Scenario.c1 4)
  /\ In "bob" (c_participants (newChat Scenario.c1 4)).
Proof.
  intros st st'.
  destruct (cleanup_exact Scenario.sweep_time st (wf_state_after Scenario.bob_gone))
    as (Hu & _ & _ & _ & _ & _ & _ & _ & Hp).
  split; [discriminate|]. split; [|split; [|split]].
  - exact (Hu "bob").
  - exact (Hu "alice").
  - apply (Hp "c1" (newChat Scenario.c1 4) "bob" eq_refl). simpl. auto.
  - simpl. auto.
Defined.

(** ** Reading the history *)

(** An event that does not reset the log of [c] extends it by what the event
    sends to [c]. *)
Lemma step_history c now e st :
  wf_server st ->
  resets_log_at c e st = false ->
  get_messages c (fst (step now e st)) = get_messages c st ++ sent_to c [(now, e)].
Proof.
  intros W R. destruct e; simpl in *; rewrite ?app_nil_r; try reflexivity.
  - unfold connection. now destruct (existsb _ _).
  - unfold get_messages.
    now destruct (socket_join_stores sock (user_room (ud_userId userData))
      (with_onlineUsers (JSSet.add (ud_userId userData))
         (with_users (JSMap.set (ud_userId userData)
            (mkUser (ud_userId userData) sock (ud_username userData)
               (ud_displayName userData) true now)) st)))
      as (_ & _ & -> & _).
  - rewrite send_message_history.
    now destruct (String.eqb (md_chatId messageData) c).
  - unfold get_messages. simpl. rewrite jsmap_get_set, String.eqb_sym.
    now rewrite R.
  - unfold join_chat. destruct (JSMap.get chatId _); auto.
    now destruct (negb _).
  - unfold leave_chat. now destruct (JSMap.get chatId _).
  - unfold mark_as_read. now destruct (JSMap.get chatId _).
  - unfold typing. now destruct (JSMap.get chatId _).
  - unfold disconnect. now destruct (find _ _) as [[k u]|].
  - unfold get_messages. rewrite (cleanup_filter now st W). simpl.
    rewrite jsmap_get_filter by apply W. simpl. rewrite R. simpl.
    now destruct (JSMap.get c (messages st)).
Qed.

Lemma sent_to_cons c now e tr :
  sent_to c ((now, e) :: tr) = sent_to c [(now, e)] ++ sent_to c tr.
Proof.
  destruct e; simpl; auto. now destruct (String.eqb (md_chatId messageData) c).
Qed.

Lemma run_history c tr : forall st,
  wf_server st -> no_reset c tr st = true ->
  get_messages c (fst (run tr st)) = get_messages c st ++ sent_to c tr.
Proof.
  induction tr as [|[now e] tr IH]; intros st W N.
  - simpl. now rewrite app_nil_r.
  - cbn [no_reset] in N. apply andb_prop in N. destruct N as [N1 N2].
    apply negb_true_iff in N1.
    rewrite sent_to_cons, app_assoc, <- (step_history c now e st W N1).
    pose proof (wf_step now e st W) as W1.
    simpl. destruct (step now e st) as [st1 out1]. simpl in *.
    specialize (IH st1 W1 N2). now destruct (run tr st1).
Qed.

Lemma cleanup_drops_empty_chat_log c now st chat :
  wf_server st ->
  JSMap.get c (chats st) = Some chat ->
  c_participants chat = [] ->
  get_messages c (cleanup now st) = [].
Proof.
  intros W H E. unfold get_messages. rewrite (cleanup_filter now st W). simpl.
  rewrite jsmap_get_filter by apply W. simpl. rewrite H.
  apply is_empty_chat_spec in E. rewrite E. simpl.
  now destruct (JSMap.get c (messages st)).
Qed.

(** C7, as stated, fails: "hi" was appended to c1, then a create-chat
    reused the id c1; [get-messages] answers the empty list, not the message
    that was appended. *)
Lemma recreated_chat_forgets_messages :
  sent_to "c1" Scenario.recreated = [Scenario.hi]
  /\ get_messages "c1" (state_after Scenario.chatting) = [Scenario.hi]
  /\ get_messages "c1" (state_after Scenario.recreated) = [].
Proof. vm_compute. auto. Qed.

(** C7 (amended): [get-messages] answers with the current log of the chat:
    the messages appended since the log was last reset, all of them, in the
    order they were sent. After any run of events none of which resets the
    log of [c] (a create-chat with that id, or a cleanup that finds the chat
    with no participant), the answer is what it was before followed by
    exactly the messages the run sent to [c]; a create-chat with the id, and
    a cleanup that finds the chat with no participant, leave the empty list,
    so messages appended before are no longer returned. For a chat id with no
    log the answer is the empty list, and the handler has no failing case. *)
Theorem get_messages_since_reset c :
  (forall tr st,
      wf_server st -> no_reset c tr st = true ->
      get_messages c (fst (run tr st)) = get_messages c st ++ sent_to c tr)
  /\ (forall sock d now st,
        cd_id d = c -> get_messages c (fst (create_chat sock d now st)) = [])
  /\ (forall now st chat,
        wf_server st -> JSMap.get c (chats st) = Some chat ->
        c_participants chat = [] ->
        get_messages c (cleanup now st) = [])
  /\ (forall st, JSMap.get c (messages st) = None -> get_messages c st = []).
Proof.
  split; [|split; [|split]].
  - intros tr st. apply run_history.
  - intros sock d now st <-. unfold get_messages.
    now rewrite (proj2 (create_chat_stores sock d now st)).
  - intros now st chat. apply cleanup_drops_empty_chat_log.
  - intros st E. unfold get_messages. now rewrite E.
Qed.

Lemma get_messages_since_reset_witness :
  get_messages "c1" (fst (run [(5%Z, EvSendMessage "s1" Scenario.hi);
                               (6%Z, EvCleanup);
                               (7%Z, EvSendMessage "s2" Scenario.stray);
                               (8%Z, EvSendMessage "s2" Scenario.hello)]
                              (state_after Scenario.setup)))
  = [Scenario.hi; Scenario.hello]
  /\ get_messages "c1"
       (fst (create_chat "s2" Scenario.c1_again 9 (state_after Scenario.chatting)))
     = []
  /\ get_messages "ghost" (state_after Scenario.setup) = [].
Proof.
  destruct (get_messages_since_reset "c1") as (H1 & H2 & _ & _).
  destruct (get_messages_since_reset "ghost") as (_ & _ & _ & H4).
  split; [|split].
  - apply (H1 [(5%Z, EvSendMessage "s1" Scenario.hi);
               (6%Z, EvCleanup);
               (7%Z, EvSendMessage "s2" Scenario.stray);
               (8%Z, EvSendMessage "s2" Scenario.hello)]
              (state_after Scenario.setup)).
    + apply wf_state_after.
    + reflexivity.
  - apply H2. reflexivity.
  - apply H4. reflexivity.
Defined.

(** ** Searching users *)

Lemma prefix_spec a s :
  String.prefix a s = true <-> exists post, s = String.append a post.
Proof.
  revert s. induction a as [|x a IH]; intros s; simpl.
  - destruct s; split; eauto.
  - destruct s as [|y s]; simpl.
    + split; [discriminate | intros [post H]; discriminate].
    + destruct (ascii_dec x y) as [<- | N].
      * rewrite IH. split; intros [post H]; exists post; congruence.
      * split; [discriminate | intros [post H]; congruence].
Qed.

Lemma str_includes_nil sub :
  str_includes EmptyString sub = String.prefix sub EmptyString || false.
Proof. reflexivity. Qed.

Lemma str_includes_cons x s sub :
  str_includes (String x s) sub
  = String.prefix sub (String x s) || str_includes s sub.
Proof. reflexivity. Qed.

Lemma str_includes_spec s sub :
  str_includes s sub = true
  <-> exists pre post, s = String.append pre (String.append sub post).
Proof.
  induction s as [|x s IH];
    [rewrite str_includes_nil | rewrite str_includes_cons];
    rewrite orb_true_iff, prefix_spec.
  - split.
    + intros [[post H] | H]; [|discriminate]. now exists EmptyString, post.
    + intros [[|y pre] [post H]]; [|discriminate]. left. now exists post.
  - rewrite IH. split.
    + intros [[post H] | [pre [post H]]].
      * now exists EmptyString, post.
      * exists (String x pre), post. simpl. now rewrite H.
    + intros [[|y pre] [post H]].
      * left. now exists post.
      * right. exists pre, post. simpl in H. congruence.
Qed.

Lemma search_matches_spec fold q user :
  search_matches_with fold q user = true
  <-> contains_ci fold (u_username user) q
      \/ contains_ci fold (u_displayName user) q.
Proof.
  unfold search_matches_with, contains_ci.
  now rewrite orb_true_iff, !str_includes_spec.
Qed.

Lemma user_online_keys sock d now st :
  JSMap.keys (users (fst (user_online sock d now st)))
  = if JSMap.has (ud_userId d) (users st) then JSMap.keys (users st)
    else JSMap.keys (users st) ++ [ud_userId d].
Proof.
  unfold user_online. simpl.
  destruct (socket_join_stores sock (user_room (ud_userId d))
    (with_onlineUsers (JSSet.add (ud_userId d))
       (with_users (JSMap.set (ud_userId d)
          (mkUser (ud_userId d) sock (ud_username d) (ud_displayName d) true now))
          st))) as (-> & _).
  simpl. apply jsmap_keys_set.
Qed.

(** C9, as stated, fails: the order of the answer is the iteration order of
    the [users] map, not one fixed by match and identity. Two
    registries with the same two users, who match the query alike, answer in
    opposite orders. *)
Lemma search_order_follows_registry :
  let st1 := state_after Scenario.a_then_b in
  let st2 := state_after Scenario.b_then_a in
  JSMap.get "a" (users st1) = JSMap.get "a" (users st2)
  /\ JSMap.get "b" (users st1) = JSMap.get "b" (users st2)
  /\ map us_id (search_users "SAM" st1) = ["a"; "b"]
  /\ map us_id (search_users "SAM" st2) = ["b"; "a"]
  /\ search_users "SAM" st1 <> search_users "SAM" st2.
Proof. vm_compute. repeat split; discriminate. Qed.

(** C9 (amended): search-users answers with the users whose username or
    display name, lower-cased by [toLowerCase], contains the lower-cased
    query as a substring, that is, with a case-insensitive substring match:
    at most 10 of them, the first ones in the iteration order of the [users]
    map, and fewer than 10 only when no other user matches. A user-online
    for an id the registry holds keeps the place of the id in that order, for
    any other id it puts the id last. No ordering by match or identity is
    done. The statement holds whatever [toLowerCase] does to a string. *)
Theorem search_users_spec (fold : string -> string) q st :
  length (search_users_with fold q st) <= 10
  /\ (forall user, search_matches_with fold q user = true
                   <-> contains_ci fold (u_username user) q
                       \/ contains_ci fold (u_displayName user) q)
  /\ (exists rest,
         map (summary st)
             (filter (search_matches_with fold q) (JSMap.values (users st)))
         = search_users_with fold q st ++ rest
         /\ (length (search_users_with fold q st) < 10 -> rest = []))
  /\ (forall r, In r (search_users_with fold q st) ->
        exists user, In user (JSMap.values (users st)) /\ r = summary st user
                     /\ (contains_ci fold (u_username user) q
                         \/ contains_ci fold (u_displayName user) q))
  /\ (forall sock d now,
        JSMap.keys (users (fst (user_online sock d now st)))
        = if JSMap.has (ud_userId d) (users st) then JSMap.keys (users st)
          else JSMap.keys (users st) ++ [ud_userId d]).
Proof.
  unfold search_users_with.
  set (all := filter (search_matches_with fold q) (JSMap.values (users st))).
  split; [|split; [|split; [|split]]].
  - rewrite length_map. apply firstn_le_length.
  - intros user. apply search_matches_spec.
  - exists (map (summary st) (skipn 10 all)). split.
    + rewrite <- map_app. now rewrite firstn_skipn.
    + rewrite length_map, length_firstn. intros H.
      rewrite skipn_all2; [reflexivity | lia].
  - intros r Hin. apply in_map_iff in Hin. destruct Hin as [user [<- Hin]].
    assert (Hall : In user all).
    { rewrite <- (firstn_skipn 10 all). apply in_or_app. now left. }
    clear Hin. rename Hall into Hin. apply filter_In in Hin.
    destruct Hin as [Hin Hm].
    exists user. repeat split; auto. now apply search_matches_spec.
  - intros sock d now. apply user_online_keys.
Qed.

Lemma search_users_spec_witness :
  let st := state_after Scenario.setup in
  search_users "LIC" st = [mkUserSummary "alice" "alice" "Alice" true]
  /\ exists user, In user (JSMap.values (users st))
       /\ mkUserSummary "alice" "alice" "Alice" true = summary st user
       /\ (contains_ci toLowerCase (u_username user) "LIC"
           \/ contains_ci toLowerCase (u_displayName user) "LIC").
Proof.
  intros st. split; [reflexivity|].
  destruct (search_users_spec toLowerCase "LIC" st) as (_ & _ & _ & H & _).
  apply H. simpl. auto.
Defined.

(** * Further properties of the handlers *)

(** ** Facts about [JSSet] *)

Lemma jsset_has_In x s : JSSet.has x s = true <-> In x s.
Proof.
  unfold JSSet.has. rewrite existsb_exists. split.
  - intros [y [Hin E]]. apply String.eqb_eq in E. now subst.
  - intros H. exists x. now rewrite String.eqb_refl.
Qed.

Lemma jsset_has_add x y s :
  JSSet.has x (JSSet.add y s) = String.eqb x y || JSSet.has x s.
Proof.
  unfold JSSet.add. destruct (JSSet.has y s) eqn:E.
  - destruct (String.eqb x y) eqn:F; auto.
    apply String.eqb_eq in F. now subst.
  - unfold JSSet.has. rewrite existsb_app. simpl.
    now rewrite orb_false_r, orb_comm.
Qed.

Lemma jsset_has_delete x y s :
  JSSet.has x (JSSet.delete y s) = negb (String.eqb x y) && JSSet.has x s.
Proof.
  unfold JSSet.has, JSSet.delete. induction s as [|z s IH]; simpl.
  - now rewrite andb_false_r.
  - destruct (String.eqb y z) eqn:E; simpl; rewrite IH.
    + apply String.eqb_eq in E. subst z.
      destruct (String.eqb x y); simpl; auto.
    + destruct (String.eqb x z) eqn:F; simpl; auto.
      apply String.eqb_eq in F. subst z. rewrite String.eqb_sym, E. reflexivity.
Qed.

Lemma jsset_nodup_add y s : NoDup s -> NoDup (JSSet.add y s).
Proof.
  intros H. unfold JSSet.add. destruct (JSSet.has y s) eqn:E; auto.
  apply NoDup_app; auto.
  - repeat constructor. simpl. tauto.
  - intros a Ha [<- | []]. apply jsset_has_In in Ha. congruence.
Qed.

Lemma jsset_nodup_delete y s : NoDup s -> NoDup (JSSet.delete y s).
Proof. apply NoDup_filter. Qed.

Lemma jsmap_has_get {V} k (m : JSMap.t V) :
  JSMap.has k m = true <-> JSMap.get k m <> None.
Proof.
  unfold JSMap.has. destruct (JSMap.get k m); split; congruence.
Qed.

Lemma jsmap_has_set {V} k k' (v : V) m :
  JSMap.has k (JSMap.set k' v m) = String.eqb k k' || JSMap.has k m.
Proof.
  unfold JSMap.has. rewrite jsmap_get_set. now destruct (String.eqb k k').
Qed.

(** ** The stores stay consistent *)

Lemma presence_ok_ext st st' :
  users st' = users st -> onlineUsers st' = onlineUsers st ->
  presence_ok st -> presence_ok st'.
Proof. intros Hu Ho [H1 H2 H3 H4]. split; rewrite ?Hu, ?Ho; auto. Qed.

Lemma directory_ok_ext st st' :
  chats st' = chats st -> messages st' = messages st ->
  directory_ok st -> directory_ok st'.
Proof. intros Hc Hm [H1 H2]. split; rewrite ?Hc, ?Hm; auto. Qed.

Lemma presence_ok_init : presence_ok init.
Proof. split; simpl; try discriminate. constructor. Qed.

Lemma directory_ok_init : directory_ok init.
Proof. split; simpl; discriminate. Qed.

Lemma user_online_stores sock d now st :
  users (fst (user_online sock d now st))
    = JSMap.set (ud_userId d)
        (mkUser (ud_userId d) sock (ud_username d) (ud_displayName d) true now)
        (users st)
  /\ onlineUsers (fst (user_online sock d now st))
     = JSSet.add (ud_userId d) (onlineUsers st)
  /\ chats (fst (user_online sock d now st)) = chats st
  /\ messages (fst (user_online sock d now st)) = messages st
  /\ sockets (fst (user_online sock d now st)) = sockets st.
Proof.
  unfold user_online. simpl.
  destruct (socket_join_stores sock (user_room (ud_userId d))
    (with_onlineUsers (JSSet.add (ud_userId d))
       (with_users (JSMap.set (ud_userId d)
          (mkUser (ud_userId d) sock (ud_username d) (ud_displayName d) true now))
          st))) as (-> & -> & -> & -> & ->).
  simpl. auto.
Qed.

Lemma presence_ok_user_online sock d now st :
  presence_ok st -> presence_ok (fst (user_online sock d now st)).
Proof.
  intros [H1 H2 H3 H4].
  destruct (user_online_stores sock d now st) as (Hu & Ho & _).
  split; rewrite ?Hu, ?Ho.
  - intros k user. rewrite jsmap_get_set.
    destruct (String.eqb k (ud_userId d)) eqn:E; [|apply H1].
    apply String.eqb_eq in E. now intros [= <-].
  - intros k user. rewrite jsmap_get_set, jsset_has_add.
    destruct (String.eqb k (ud_userId d)); [|apply H2].
    now intros [= <-].
  - intros k. rewrite jsset_has_add, jsmap_has_set.
    destruct (String.eqb k (ud_userId d)); simpl; auto.
  - now apply jsset_nodup_add.
Qed.

Lemma find_some_entry (sock : SocketId) (m : JSMap.t User) k user :
  JSMap.wf m ->
  find (fun kv => String.eqb (u_socketId (snd kv)) sock) (JSMap.entries m)
    = Some (k, user) ->
  JSMap.get k m = Some user /\ u_socketId user = sock.
Proof.
  intros W H. apply find_some in H. destruct H as [Hin E].
  simpl in E. apply String.eqb_eq in E. split; auto.
  now apply jsmap_in_get.
Qed.

Lemma disconnect_stores sock now st :
  chats (fst (disconnect sock now st)) = chats st
  /\ messages (fst (disconnect sock now st)) = messages st
  /\ sockets (fst (disconnect sock now st))
     = filter (fun s' => negb (String.eqb sock s')) (sockets st)
  /\ rooms (fst (disconnect sock now st))
     = filter (fun p => negb (String.eqb sock (snd p))) (rooms st).
Proof.
  unfold disconnect. destruct (find _ _) as [[k u]|]; simpl; auto.
Qed.

Lemma presence_ok_disconnect sock now st :
  JSMap.wf (users st) -> presence_ok st ->
  presence_ok (fst (disconnect sock now st)).
Proof.
  intros W [H1 H2 H3 H4]. unfold disconnect.
  destruct (find _ _) as [[k0 u0]|] eqn:F; simpl.
  - apply find_some_entry in F; [|exact W]. simpl in F. destruct F as [G _].
    split; simpl.
    + intros k user. rewrite jsmap_get_set.
      destruct (String.eqb k k0) eqn:E; [|apply H1].
      apply String.eqb_eq in E. subst k0. intros [= <-]. simpl. now apply H1.
    + intros k user. rewrite jsmap_get_set, jsset_has_delete.
      destruct (String.eqb k k0); simpl; [|apply H2].
      now intros [= <-].
    + intros k. rewrite jsset_has_delete, jsmap_has_set.
      destruct (String.eqb k k0); simpl; auto.
    + now apply jsset_nodup_delete.
  - now split.
Qed.

Lemma presence_ok_cleanup now st :
  wf_server st -> presence_ok st -> presence_ok (cleanup now st).
Proof.
  intros W [H1 H2 H3 H4]. rewrite (cleanup_filter now st W).
  destruct W as [Wu _ _]. split; simpl.
  - intros k user. rewrite jsmap_get_filter by assumption.
    destruct (JSMap.get k (users st)) as [u|] eqn:E; [|discriminate].
    simpl. destruct (inactive now u); [discriminate|].
    intros [= <-]. now apply H1.
  - intros k user. rewrite jsmap_get_filter by assumption.
    destruct (JSMap.get k (users st)) as [u|] eqn:E; [|discriminate].
    simpl. destruct (inactive now u); [discriminate|].
    intros [= <-]. now apply H2.
  - intros k Hk. apply jsmap_has_get. rewrite jsmap_get_filter by assumption.
    pose proof (H3 k Hk) as Hu. apply jsmap_has_get in Hu.
    destruct (JSMap.get k (users st)) as [u|] eqn:E; [|congruence].
    simpl. unfold inactive. rewrite (H2 k u E), Hk. simpl. discriminate.
  - exact H4.
Qed.

Lemma presence_ok_step now e st :
  wf_server st -> presence_ok st -> presence_ok (fst (step now e st)).
Proof.
  intros W P. destruct e; simpl; auto.
  - unfold connection. destruct (existsb _ _); auto.
    now apply (presence_ok_ext st).
  - now apply presence_ok_user_online.
  - destruct (send_message_other_stores sock messageData st) as (Hu & _ & Ho & _).
    now apply (presence_ok_ext st).
  - now apply (presence_ok_ext st).
  - unfold join_chat. destruct (JSMap.get chatId _); auto.
    destruct (negb _); auto. now apply (presence_ok_ext st).
  - unfold leave_chat. destruct (JSMap.get chatId _); auto.
    now apply (presence_ok_ext st).
  - unfold mark_as_read. now destruct (JSMap.get chatId _).
  - unfold typing. now destruct (JSMap.get chatId _).
  - apply presence_ok_disconnect; auto. now destruct W.
  - now apply presence_ok_cleanup.
Qed.

Lemma directory_ok_cleanup now st :
  wf_server st -> directory_ok st -> directory_ok (cleanup now st).
Proof.
  intros W [H1 H2]. rewrite (cleanup_filter now st W).
  destruct W as [_ Wc Wm]. split; simpl.
  - intros k chat. rewrite jsmap_get_filter by assumption.
    destruct (JSMap.get k (chats st)) as [c|] eqn:E; [|discriminate].
    simpl. destruct (is_empty_chat c); [discriminate|].
    intros [= <-]. now apply H1.
  - intros k. rewrite !jsmap_has_get, !jsmap_get_filter by assumption.
    specialize (H2 k). rewrite !jsmap_has_get in H2. simpl.
    destruct (JSMap.get k (chats st)) as [c|] eqn:E; [|congruence].
    simpl. destruct (is_empty_chat c); simpl; [congruence|].
    intros _. destruct (JSMap.get k (messages st)); [discriminate|].
    apply H2. discriminate.
Qed.

Lemma directory_ok_step now e st :
  wf_server st -> directory_ok st -> directory_ok (fst (step now e st)).
Proof.
  intros W D. pose proof D as [H1 H2]. destruct e; simpl; auto.
  - unfold connection. destruct (existsb _ _); auto.
    now apply (directory_ok_ext st).
  - destruct (user_online_stores sock userData now st) as (_ & _ & Hc & Hm & _).
    now apply (directory_ok_ext st).
  - destruct (send_message_other_stores sock messageData st) as (_ & Hc & _).
    split; rewrite Hc; auto.
    intros k Hk. apply jsmap_has_get. rewrite send_message_log.
    destruct (String.eqb k (md_chatId messageData)); [discriminate|].
    apply jsmap_has_get. auto.
  - split; simpl.
    + intros k chat. rewrite jsmap_get_set.
      destruct (String.eqb k (cd_id chatData)) eqn:E; [|apply H1].
      apply String.eqb_eq in E. now intros [= <-].
    + intros k. rewrite !jsmap_has_set.
      destruct (String.eqb k (cd_id chatData)); simpl; auto.
  - unfold join_chat. destruct (JSMap.get chatId _) as [chat|] eqn:E; auto.
    destruct (negb _); auto. split; simpl.
    + intros k c. rewrite jsmap_get_set.
      destruct (String.eqb k chatId) eqn:F; [|apply H1].
      apply String.eqb_eq in F. subst k. intros [= <-]. simpl. now apply H1.
    + intros k. rewrite jsmap_has_set.
      destruct (String.eqb k chatId) eqn:F; simpl; auto.
      apply String.eqb_eq in F. subst k. intros _. apply H2.
      apply jsmap_has_get. congruence.
  - unfold leave_chat. destruct (JSMap.get chatId _) as [chat|] eqn:E; auto.
    split; simpl.
    + intros k c. rewrite jsmap_get_set.
      destruct (String.eqb k chatId) eqn:F; [|apply H1].
      apply String.eqb_eq in F. subst k. intros [= <-]. simpl. now apply H1.
    + intros k. rewrite jsmap_has_set.
      destruct (String.eqb k chatId) eqn:F; simpl; auto.
      apply String.eqb_eq in F. subst k. intros _. apply H2.
      apply jsmap_has_get. congruence.
  - unfold mark_as_read. now destruct (JSMap.get chatId _).
  - unfold typing. now destruct (JSMap.get chatId _).
  - destruct (disconnect_stores sock now st) as (Hc & Hm & _).
    now apply (directory_ok_ext st).
  - now apply directory_ok_cleanup.
Qed.

Lemma invariants_run tr : forall st,
  wf_server st -> presence_ok st -> directory_ok st ->
  presence_ok (fst (run tr st)) /\ directory_ok (fst (run tr st)).
Proof.
  induction tr as [|[now e] tr IH]; intros st W P D; simpl; auto.
  pose proof (wf_step now e st W) as W1.
  pose proof (presence_ok_step now e st W P) as P1.
  pose proof (directory_ok_step now e st W D) as D1.
  destruct (step now e st) as [st1 out1]. simpl in *.
  specialize (IH st1 W1 P1 D1). now destruct (run tr st1).
Qed.

Lemma presence_ok_state_after tr : presence_ok (state_after tr).
Proof.
  apply (invariants_run tr init wf_init presence_ok_init directory_ok_init).
Qed.

Lemma directory_ok_state_after tr : directory_ok (state_after tr).
Proof.
  apply (invariants_run tr init wf_init presence_ok_init directory_ok_init).
Qed.

(** X1: in every state the server can reach, a user is stored under its own
    id, its [isOnline] flag is true exactly when its id is in the online
    set, every id of the online set is registered, and the online set lists
    no id twice. *)
Theorem presence_invariant tr :
  let st := state_after tr in
  (forall k user, JSMap.get k (users st) = Some user ->
                  u_id user = k
                  /\ u_isOnline user = JSSet.has k (onlineUsers st))
  /\ (forall k, In k (onlineUsers st) -> JSMap.has k (users st) = true)
  /\ NoDup (onlineUsers st).
Proof.
  intros st. destruct (presence_ok_state_after tr) as [H1 H2 H3 H4].
  split; [|split]; auto.
  intros k Hin. apply H3. now apply jsset_has_In.
Qed.

Lemma presence_invariant_witness :
  let st := state_after Scenario.bob_gone in
  (u_id (set_offline 6 (mkUser "bob" "s2" "bob" "Bob" true 3)) = "bob"
   /\ u_isOnline (set_offline 6 (mkUser "bob" "s2" "bob" "Bob" true 3))
      = JSSet.has "bob" (onlineUsers st))
  /\ JSMap.has "alice" (users st) = true.
Proof.
  intros st. destruct (presence_invariant Scenario.bob_gone) as (H1 & H2 & _).
  split.
  - apply (H1 "bob"). reflexivity.
  - apply (H2 "alice"). simpl. auto.
Defined.

Lemma values_keys_in {V} (m : JSMap.t V) v :
  In v (JSMap.values m) -> exists k, In (k, v) m.
Proof.
  unfold JSMap.values. rewrite in_map_iff. intros [[k v'] [<- Hin]]. now exists k.
Qed.

(** X2: in every reachable state [GET /users] lists one entry per registered
    id, in registry order, and the [isOnline] it computes from the online set
    is the flag stored in the user. *)
Theorem usersList_reports_flag tr :
  let st := state_after tr in
  map ue_id (usersList st) = JSMap.keys (users st)
  /\ NoDup (map ue_id (usersList st))
  /\ usersList st
     = map (fun user => mkUserEntry (u_id user) (u_username user)
                          (u_displayName user) (u_isOnline user)
                          (u_lastSeen user))
           (JSMap.values (users st)).
Proof.
  intros st. destruct (presence_ok_state_after tr) as [H1 H2 _ _].
  destruct (wf_state_after tr) as [Wu _ _]. fold st in H1, H2, Wu.
  assert (K : map ue_id (usersList st) = JSMap.keys (users st)).
  { unfold usersList, JSMap.values, JSMap.keys. rewrite !map_map.
    apply map_ext_in. intros [k user] Hin. simpl.
    apply H1. now apply jsmap_in_get. }
  split; [exact K|]. split; [rewrite K; exact Wu|].
  unfold usersList. apply map_ext_in. intros user Hin.
  apply values_keys_in in Hin. destruct Hin as [k Hin].
  apply jsmap_in_get in Hin; [|exact Wu].
  now rewrite (H1 k user Hin), (H2 k user Hin).
Qed.

(** X3: in every reachable state [GET /stats] reports at most as many
    online users as registered users. *)
Theorem stats_online_le_total tr :
  s_onlineUsers (stats (state_after tr)) <= s_totalUsers (stats (state_after tr)).
Proof.
  destruct (presence_ok_state_after tr) as [_ _ H3 H4]. simpl.
  unfold JSMap.size.
  rewrite <- (length_map fst (users (state_after tr))).
  apply NoDup_incl_length; auto.
  intros k Hin. apply jsset_has_In in Hin. apply H3 in Hin.
  apply jsmap_has_get in Hin.
  destruct (JSMap.get k (users (state_after tr))) as [u|] eqn:E; [|congruence].
  apply jsmap_get_some_in in E. change k with (fst (k, u)). now apply in_map.
Qed.

(** The sum [GET /stats] computes over the logs. *)
Lemma total_acc (l : list (list MessageData)) a :
  fold_left (fun sum chatMessages => sum + length chatMessages) l a
  = a + fold_left (fun sum chatMessages => sum + length chatMessages) l 0.
Proof.
  revert a. induction l as [|x l IH]; intros a; simpl; [lia|].
  rewrite IH, (IH (length x)). lia.
Qed.

Lemma total_set k log (m : JSMap.t (list MessageData)) :
  fold_left (fun sum chatMessages => sum + length chatMessages)
            (JSMap.values (JSMap.set k log m)) 0
  + length (match JSMap.get k m with Some old => old | None => [] end)
  = fold_left (fun sum chatMessages => sum + length chatMessages)
              (JSMap.values m) 0
    + length log.
Proof.
  induction m as [|[k' v'] r IH]; simpl; [lia|].
  destruct (String.eqb k k'); simpl.
  - rewrite total_acc, (total_acc _ (length v')). lia.
  - rewrite total_acc, (total_acc _ (length v')). lia.
Qed.

Lemma size_set_present {V} k (v : V) m :
  JSMap.has k m = true -> JSMap.size (JSMap.set k v m) = JSMap.size m.
Proof.
  intros H. unfold JSMap.size.
  rewrite <- (length_map fst), <- (length_map fst m).
  change (length (JSMap.keys (JSMap.set k v m)) = length (JSMap.keys m)).
  now rewrite jsmap_keys_set, H.
Qed.

(** X4: a send-message raises the [totalMessages] of [GET /stats] by one,
    whatever chat id it names, and leaves the other three counters as they
    were. *)
Theorem stats_after_send_message sock m st :
  let st' := fst (send_message sock m st) in
  s_totalMessages (stats st') = S (s_totalMessages (stats st))
  /\ s_totalUsers (stats st') = s_totalUsers (stats st)
  /\ s_onlineUsers (stats st') = s_onlineUsers (stats st)
  /\ s_totalChats (stats st') = s_totalChats (stats st).
Proof.
  intros st'. subst st'.
  destruct (send_message_other_stores sock m st) as (Hu & Hc & Ho & _).
  unfold stats. simpl. rewrite Hu, Hc, Ho. split; auto.
  rewrite send_message_state. unfold push_message, JSMap.has.
  destruct (JSMap.get (md_chatId m) (messages st)) as [log|] eqn:E; simpl.
  - rewrite E.
    pose proof (total_set (md_chatId m) (log ++ [m]) (messages st)) as T.
    rewrite E, length_app in T. simpl in T. lia.
  - rewrite jsmap_get_set_eq.
    pose proof (total_set (md_chatId m) [] (messages st)) as T1.
    pose proof (total_set (md_chatId m) ([] ++ [m])
                  (JSMap.set (md_chatId m) [] (messages st))) as T2.
    rewrite E in T1. rewrite jsmap_get_set_eq in T2. simpl in *. lia.
Qed.

(** X5: in every reachable state [GET /chats] lists one entry per chat id,
    in directory order; the [messageCount] of an entry is the length of what
    [get-messages] answers for that id, and its [participantCount] the
    length of the participant list stored under that id. *)
Theorem chatsList_counts tr :
  let st := state_after tr in
  map ce_id (chatsList st) = JSMap.keys (chats st)
  /\ NoDup (map ce_id (chatsList st))
  /\ (forall e, In e (chatsList st) ->
        ce_messageCount e = length (get_messages (ce_id e) st)
        /\ exists chat, JSMap.get (ce_id e) (chats st) = Some chat
                        /\ ce_participantCount e = length (c_participants chat)).
Proof.
  intros st. destruct (directory_ok_state_after tr) as [H1 _].
  destruct (wf_state_after tr) as [_ Wc _]. fold st in H1, Wc.
  assert (K : map ce_id (chatsList st) = JSMap.keys (chats st)).
  { unfold chatsList, JSMap.values, JSMap.keys. rewrite !map_map.
    apply map_ext_in. intros [k chat] Hin. simpl.
    apply H1. now apply jsmap_in_get. }
  split; [exact K|]. split; [rewrite K; exact Wc|].
  intros e Hin. unfold chatsList in Hin. apply in_map_iff in Hin.
  destruct Hin as [chat [<- Hin]]. simpl.
  apply values_keys_in in Hin. destruct Hin as [k Hin].
  apply jsmap_in_get in Hin; [|exact Wc].
  rewrite (H1 k chat Hin). split.
  - unfold messageCount, get_messages. rewrite (H1 k chat Hin).
    now destruct (JSMap.get k (messages st)).
  - now exists chat.
Qed.

Lemma chatsList_counts_witness :
  ce_messageCount (mkChatEntry "c1" "group" "Team" 2 1)
  = length (get_messages "c1" (state_after Scenario.chatting))
  /\ exists chat,
       JSMap.get "c1" (chats (state_after Scenario.chatting)) = Some chat
       /\ 2 = length (c_participants chat).
Proof.
  destruct (chatsList_counts Scenario.chatting) as (_ & _ & H).
  apply (H (mkChatEntry "c1" "group" "Team" 2 1)). simpl. auto.
Defined.

(** ** Typing notices *)

(** X6: a typing event changes nothing in the server state. For an
    existing chat it hands user-typing, with the username the registry holds
    for the typist if any, to exactly the sockets in the personal rooms of the
    participants other than the typist; for an unknown chat nobody is
    notified. *)
Theorem typing_fanout sock chatId userId isTyping st :
  fst (typing sock chatId userId isTyping st) = st
  /\ (JSMap.get chatId (chats st) = None ->
      snd (typing sock chatId userId isTyping st) = [])
  /\ (forall chat, JSMap.get chatId (chats st) = Some chat ->
      forall s ev,
        In (s, ev) (snd (typing sock chatId userId isTyping st))
        <-> ev = UserTyping chatId userId (username_of userId st) isTyping
            /\ exists p, In p (c_participants chat) /\ p <> userId
                         /\ In s (sockets_in (user_room p) st)).
Proof.
  unfold typing. destruct (JSMap.get chatId (chats st)) as [chat|].
  - split; [reflexivity|]. split; [discriminate|].
    intros chat' [= <-] s ev. apply in_emit_to_others.
  - split; [reflexivity|]. split; [reflexivity|]. discriminate.
Qed.

Lemma typing_fanout_witness :
  let st := state_after Scenario.setup in
  snd (typing "s1" "ghost" "alice" true st) = []
  /\ (In ("s2", UserTyping "c1" "alice" (Some "alice") true)
         (snd (typing "s1" "c1" "alice" true st))
      <-> UserTyping "c1" "alice" (Some "alice") true
          = UserTyping "c1" "alice" (username_of "alice" st) true
          /\ exists p, In p ["alice"; "bob"] /\ p <> "alice"
                       /\ In "s2" (sockets_in (user_room p) st)).
Proof.
  intros st.
  destruct (typing_fanout "s1" "ghost" "alice" true st) as (_ & H2 & _).
  destruct (typing_fanout "s1" "c1" "alice" true st) as (_ & _ & H3).
  split; [apply H2; reflexivity|].
  apply (H3 (newChat Scenario.c1 4) eq_refl).
Defined.

(** ** Closing a socket *)

Lemma in_io_emit s ev ev' st :
  In (s, ev) (io_emit ev' st) <-> ev = ev' /\ In s (sockets st).
Proof.
  unfold io_emit. rewrite in_map_iff. split.
  - intros [x [[= <- <-] Hin]]. auto.
  - intros [-> Hin]. now exists s.
Qed.

Lemma send_message_out_cases sock m st :
  snd (send_message sock m st)
  = match JSMap.get (md_chatId m) (chats st) with
    | Some chat => emit_to_each (c_participants chat) (NewMessage m) st
    | None => []
    end.
Proof.
  pose proof (send_message_other_stores sock m st) as (_ & Hc & _ & _ & Hr).
  rewrite send_message_state in Hc, Hr. unfold send_message. rewrite Hc.
  destruct (JSMap.get (md_chatId m) (chats st)); auto.
  simpl. now apply emit_to_each_rooms.
Qed.

(** Whatever a handler emits goes to a socket that is connected or in a
    room when the event arrives. *)
Lemma step_targets now e st s ev :
  In (s, ev) (snd (step now e st)) ->
  In s (sockets st) \/ exists r, In s (sockets_in r st).
Proof.
  destruct e; simpl; try tauto.
  - intros H. apply in_io_emit in H. now left.
  - rewrite send_message_out_cases.
    destruct (JSMap.get _ _); [|simpl; tauto].
    intros H. apply in_emit_to_each in H. destruct H as [_ [p [_ H]]]. eauto.
  - intros H. apply in_emit_to_each in H. destruct H as [_ [p [_ H]]]. eauto.
  - unfold join_chat. destruct (JSMap.get _ _); [|simpl; tauto].
    destruct (negb _); [|simpl; tauto]. simpl.
    intros H. apply in_emit_to_each in H. destruct H as [_ [p [_ H]]]. eauto.
  - unfold leave_chat. destruct (JSMap.get _ _); [|simpl; tauto]. simpl.
    intros H. apply in_emit_to_each in H. destruct H as [_ [p [_ H]]]. eauto.
  - unfold mark_as_read. destruct (JSMap.get _ _); [|simpl; tauto]. simpl.
    intros H. apply in_emit_to_others in H. destruct H as [_ [p [_ [_ H]]]]. eauto.
  - unfold typing. destruct (JSMap.get _ _); [|simpl; tauto]. simpl.
    intros H. apply in_emit_to_others in H. destruct H as [_ [p [_ [_ H]]]]. eauto.
  - unfold disconnect. destruct (find _ _) as [[k u]|]; [|simpl; tauto]. simpl.
    intros H. apply in_app_or in H. left.
    destruct H as [H | H]; apply in_io_emit in H; destruct H as [_ H];
      simpl in H; apply filter_In in H; tauto.
Qed.

Lemma socket_join_in_inv s s' r r' st :
  In s (sockets_in r (socket_join s' r' st)) ->
  s = s' \/ In s (sockets_in r st).
Proof.
  unfold socket_join. destruct (in_room r' s' st); auto.
  unfold sockets_in. simpl. rewrite filter_app, map_app. intros H.
  apply in_app_or in H. destruct H as [H | H]; auto.
  simpl in H. destruct (String.eqb r r'); simpl in H; intuition.
Qed.

Lemma cleanup_transport now st :
  sockets (cleanup now st) = sockets st /\ rooms (cleanup now st) = rooms st.
Proof. unfold cleanup, cleanup_chats. rewrite cleanup_chats_fold. simpl. auto. Qed.

(** A step connects or puts into a room no socket but the one the event
    comes from. *)
Lemma step_transport now e st s :
  event_socket e <> Some s ->
  (In s (sockets (fst (step now e st))) -> In s (sockets st))
  /\ (forall r, In s (sockets_in r (fst (step now e st))) ->
                In s (sockets_in r st)).
Proof.
  intros N. destruct e; unfold step; simpl in N; try (simpl; tauto).
  - unfold connection. simpl. destruct (existsb _ _); [tauto|]. simpl.
    split; auto.
    intros H. apply in_app_or in H. destruct H as [H | [H | []]]; auto.
    congruence.
  - destruct (user_online_stores sock userData now st) as (_ & _ & _ & _ & Hs).
    rewrite Hs. split; auto. intros r.
    rewrite (sockets_in_rooms _ _ _ (user_online_rooms sock userData now st)).
    intros H. apply socket_join_in_inv in H. destruct H as [H | H]; auto.
    congruence.
  - destruct (send_message_other_stores sock messageData st)
      as (_ & _ & _ & Hs & Hr).
    rewrite Hs. split; auto. intros r. now rewrite (sockets_in_rooms _ _ _ Hr).
  - unfold join_chat. destruct (JSMap.get _ _); [|tauto].
    destruct (negb _); tauto.
  - unfold leave_chat. destruct (JSMap.get _ _); tauto.
  - unfold mark_as_read. destruct (JSMap.get _ _); tauto.
  - unfold typing. destruct (JSMap.get _ _); tauto.
  - destruct (disconnect_stores sock now st) as (_ & _ & Hs & Hr).
    rewrite Hs. split.
    + intros H. apply filter_In in H. tauto.
    + intros r. unfold sockets_in. rewrite Hr, !in_map_iff.
      intros [p [E H]]. exists p. split; auto.
      apply filter_In in H. destruct H as [H F]. apply filter_In in H.
      apply filter_In. tauto.
  - destruct (cleanup_transport now st) as [Hs Hr]. cbn [fst].
    rewrite Hs. split; auto.
    intros r. now rewrite (sockets_in_rooms _ _ _ Hr).
Qed.

Lemma closed_after_disconnect sock now st :
  closed sock (fst (disconnect sock now st)).
Proof.
  destruct (disconnect_stores sock now st) as (_ & _ & Hs & Hr). split.
  - rewrite Hs. intros H. apply filter_In in H. destruct H as [_ H].
    now rewrite String.eqb_refl in H.
  - intros r. unfold sockets_in. rewrite Hr, in_map_iff.
    intros [[r' s'] [E H]]. simpl in E. subst s'.
    apply filter_In in H. destruct H as [H _]. apply filter_In in H.
    destruct H as [_ H]. simpl in H. now rewrite String.eqb_refl in H.
Qed.

Lemma closed_stays_quiet s tr : forall st,
  closed s st -> silent s tr -> forall ev, ~ In (s, ev) (snd (run tr st)).
Proof.
  induction tr as [|[now e] tr IH]; intros st C S ev; simpl; auto.
  inversion S as [|? ? Se Str]; subst. simpl in Se.
  pose proof (step_targets now e st s) as T.
  pose proof (step_transport now e st s Se) as [K1 K2].
  destruct (step now e st) as [st1 out1]. simpl in *.
  assert (C1 : closed s st1).
  { destruct C as [C1 C2]. split; [tauto|]. intros r H. apply (C2 r). auto. }
  specialize (IH st1 C1 Str ev). destruct (run tr st1) as [st2 out2].
  simpl in *. intros H. apply in_app_or in H. destruct H as [H | H]; auto.
  destruct C as [C2 C3]. destruct (T ev H) as [H1 | [r H1]]; auto.
  now apply (C3 r).
Qed.

(** X7: a socket that has disconnected is sent nothing: not by the handler
    of its own disconnect, and not by any later event, for as long as no
    event comes from that socket again. *)
Theorem closed_socket_receives_nothing sock now st tr :
  silent sock tr ->
  forall ev,
    ~ In (sock, ev) (snd (disconnect sock now st))
    /\ ~ In (sock, ev) (snd (run tr (fst (disconnect sock now st)))).
Proof.
  intros S ev. split.
  - intros H. unfold disconnect in H.
    destruct (find _ _) as [[k u]|]; simpl in H; auto.
    apply in_app_or in H.
    destruct H as [H | H]; apply in_io_emit in H; destruct H as [_ H];
      simpl in H; apply filter_In in H; destruct H as [_ H];
      now rewrite String.eqb_refl in H.
  - apply closed_stays_quiet; auto. apply closed_after_disconnect.
Qed.

Lemma closed_socket_receives_nothing_witness :
  ~ In ("s2", NewMessage Scenario.hi)
       (snd (run [(7%Z, EvSendMessage "s1" Scenario.hi);
                  (8%Z, EvTyping "s1" "c1" "alice" true)]
                 (fst (disconnect "s2" 6 (state_after Scenario.setup))))).
Proof.
  apply (closed_socket_receives_nothing "s2" 6 (state_after Scenario.setup)
           [(7%Z, EvSendMessage "s1" Scenario.hi);
            (8%Z, EvTyping "s1" "c1" "alice" true)]).
  repeat constructor; simpl; discriminate.
Defined.

Lemma disconnect_no_user sock now st :
  (forall k user, In (k, user) (users st) -> u_socketId user <> sock) ->
  disconnect sock now st = (socket_close sock st, []).
Proof.
  intros H. unfold disconnect.
  destruct (find _ _) as [[k u]|] eqn:F; auto.
  apply find_some in F. destruct F as [Hin E]. simpl in *.
  apply String.eqb_eq in E. now apply H in Hin.
Qed.

(** X8: when no registered user is recorded with the socket that closes,
    the disconnect handler marks nobody offline and notifies nobody: the
    registry and the online set are as they were. *)
Theorem disconnect_unknown_socket sock now st :
  (forall k user, In (k, user) (users st) -> u_socketId user <> sock) ->
  users (fst (disconnect sock now st)) = users st
  /\ onlineUsers (fst (disconnect sock now st)) = onlineUsers st
  /\ snd (disconnect sock now st) = [].
Proof. intros H. now rewrite (disconnect_no_user sock now st H). Qed.

Lemma disconnect_unknown_socket_witness :
  users (fst (disconnect "s9" 7 (state_after Scenario.setup)))
  = users (state_after Scenario.setup)
  /\ onlineUsers (fst (disconnect "s9" 7 (state_after Scenario.setup)))
     = onlineUsers (state_after Scenario.setup)
  /\ snd (disconnect "s9" 7 (state_after Scenario.setup)) = [].
Proof.
  apply (disconnect_unknown_socket "s9" 7 (state_after Scenario.setup)).
  intros k user H. simpl in H.
  destruct H as [[= <- <-] | [[= <- <-] | []]]; simpl; discriminate.
Defined.

Lemma jsmap_set_set {V} k (v v' : V) m :
  JSMap.set k v (JSMap.set k v' m) = JSMap.set k v m.
Proof.
  induction m as [|[k2 v2] r IH]; simpl.
  - now rewrite String.eqb_refl.
  - destruct (String.eqb k k2) eqn:E; simpl.
    + now rewrite String.eqb_refl.
    + now rewrite E, IH.
Qed.

Lemma jsmap_in_set {V} k k' (v v' : V) m :
  In (k, v) (JSMap.set k' v' m) -> (k, v) = (k', v') \/ In (k, v) m.
Proof.
  induction m as [|[k2 v2] r IH]; simpl.
  - intros [H | []]. auto.
  - destruct (String.eqb k' k2); simpl; intuition.
Qed.

Lemma socket_close_keeps s sock r st :
  s <> sock -> In s (sockets_in r st) -> In s (sockets_in r (socket_close sock st)).
Proof.
  intros N. unfold sockets_in. simpl. rewrite !in_map_iff.
  intros [[r' s'] [E H]]. simpl in E. subst s'. exists (r', s). split; auto.
  apply filter_In in H. destruct H as [H F]. apply filter_In. split; auto.
  apply filter_In. split; auto. simpl.
  apply negb_true_iff, String.eqb_neq. congruence.
Qed.

(** X9: a user comes online on a fresh socket [c1] and then on another
    socket [c2]. When [c1] closes, nobody is marked offline and nobody is
    notified: the user stays in the online set with [c2] as recorded
    connection, [c1] has left the user's room and [c2] is still in it. *)
Theorem superseded_disconnect_keeps_online st u c1 c2 n1 d1 n2 d2 t1 t2 now :
  c1 <> c2 ->
  (forall k user, In (k, user) (users st) -> u_socketId user <> c1) ->
  let st2 := fst (user_online c2 (mkUserData u n2 d2) t2
                    (fst (user_online c1 (mkUserData u n1 d1) t1 st))) in
  let st3 := fst (disconnect c1 now st2) in
  snd (disconnect c1 now st2) = []
  /\ JSSet.has u (onlineUsers st3) = true
  /\ connection_of u st3 = Some c2
  /\ ~ In c1 (sockets_in (user_room u) st3)
  /\ In c2 (sockets_in (user_room u) st3).
Proof.
  intros N F st2 st3.
  set (st1 := fst (user_online c1 (mkUserData u n1 d1) t1 st)) in *.
  destruct (user_online_stores c1 (mkUserData u n1 d1) t1 st) as (Hu1 & _).
  destruct (user_online_stores c2 (mkUserData u n2 d2) t2 st1) as (Hu2 & Ho2 & _).
  fold st1 in Hu1. fold st2 in Hu2, Ho2. simpl in Hu1, Hu2, Ho2.
  rewrite Hu1, jsmap_set_set in Hu2.
  assert (D : disconnect c1 now st2 = (socket_close c1 st2, [])).
  { apply disconnect_no_user. intros k user Hin. rewrite Hu2 in Hin.
    apply jsmap_in_set in Hin. destruct Hin as [[= -> ->] | Hin].
    - simpl. congruence.
    - now apply (F k). }
  subst st3. rewrite D. simpl.
  split; [reflexivity|]. split; [|split; [|split]].
  - rewrite Ho2, jsset_has_add, String.eqb_refl. reflexivity.
  - unfold connection_of. simpl. rewrite Hu2, jsmap_get_set_eq. reflexivity.
  - pose proof (closed_after_disconnect c1 now st2) as [_ C].
    rewrite D in C. apply C.
  - apply socket_close_keeps; [congruence|].
    exact (proj1 (user_online_joins c2 (mkUserData u n2 d2) t2 st1)).
Qed.

Lemma superseded_disconnect_keeps_online_witness :
  let st2 := fst (user_online "s3" Scenario.alice 6
                    (fst (user_online "s1" Scenario.alice 2 init))) in
  snd (disconnect "s1" 9 st2) = []
  /\ JSSet.has "alice" (onlineUsers (fst (disconnect "s1" 9 st2))) = true
  /\ connection_of "alice" (fst (disconnect "s1" 9 st2)) = Some "s3"
  /\ ~ In "s1" (sockets_in (user_room "alice") (fst (disconnect "s1" 9 st2)))
  /\ In "s3" (sockets_in (user_room "alice") (fst (disconnect "s1" 9 st2))).
Proof.
  apply (superseded_disconnect_keeps_online init "alice" "s1" "s3"
           "alice" "Alice" "alice" "Alice" 2 6 9).
  - discriminate.
  - simpl. tauto.
Defined.

(** X10: when the socket that closes is the recorded connection of exactly
    one registered user, the disconnect handler clears that user's
    [isOnline] flag, stamps [lastSeen] with the current time, takes the id out
    of the online set and leaves every other user as it was; each socket that
    is still connected is sent users-online with the new online set and then
    user-offline for that user. *)
Theorem disconnect_marks_offline sock now st u user :
  JSMap.wf (users st) ->
  JSMap.get u (users st) = Some user ->
  u_socketId user = sock ->
  (forall k' user', JSMap.get k' (users st) = Some user' ->
                    u_socketId user' = sock -> k' = u) ->
  let st' := fst (disconnect sock now st) in
  let remaining := filter (fun s' => negb (String.eqb sock s')) (sockets st) in
  JSMap.get u (users st') = Some (set_offline now user)
  /\ u_isOnline (set_offline now user) = false
  /\ u_lastSeen (set_offline now user) = now
  /\ JSSet.has u (onlineUsers st') = false
  /\ (forall k, k <> u ->
        JSMap.get k (users st') = JSMap.get k (users st)
        /\ JSSet.has k (onlineUsers st') = JSSet.has k (onlineUsers st))
  /\ snd (disconnect sock now st)
     = map (fun s => (s, UsersOnline (JSSet.delete u (onlineUsers st)))) remaining
       ++ map (fun s => (s, UserOffline (u_id user) now)) remaining.
Proof.
  intros W G S U st' remaining. subst st' remaining. unfold disconnect.
  destruct (find _ _) as [[k0 u0]|] eqn:F.
  - apply find_some_entry in F; [|exact W]. simpl in F. destruct F as [G0 S0].
    assert (k0 = u) by (apply (U k0 u0); auto). subst k0.
    assert (u0 = user) by congruence. subst u0. simpl.
    split; [apply jsmap_get_set_eq|]. do 2 (split; [reflexivity|]).
    split; [rewrite jsset_has_delete, String.eqb_refl; reflexivity|].
    split; [|reflexivity].
    intros k N. rewrite jsmap_get_set_neq by assumption.
    rewrite jsset_has_delete. apply String.eqb_neq in N. now rewrite N.
  - exfalso. apply jsmap_get_some_in in G.
    apply (find_none _ _ F) in G. simpl in G.
    rewrite S, String.eqb_refl in G. discriminate.
Qed.

Lemma disconnect_marks_offline_witness :
  let st := state_after Scenario.setup in
  JSMap.get "bob" (users (fst (disconnect "s2" 6 st)))
  = Some (mkUser "bob" "s2" "bob" "Bob" false 6)
  /\ JSSet.has "bob" (onlineUsers (fst (disconnect "s2" 6 st))) = false
  /\ snd (disconnect "s2" 6 st)
     = [("s1", UsersOnline ["alice"]); ("s1", UserOffline "bob" 6)].
Proof.
  intros st.
  destruct (disconnect_marks_offline "s2" 6 st "bob"
              (mkUser "bob" "s2" "bob" "Bob" true 3))
    as (H1 & _ & _ & H4 & _ & H6).
  - apply (wf_users _ (wf_state_after Scenario.setup)).
  - reflexivity.
  - reflexivity.
  - intros k' user'. simpl.
    destruct (String.eqb k' "alice"); [intros [= <-]; discriminate|].
    destruct (String.eqb k' "bob") eqn:E; [|discriminate].
    intros _ _. now apply String.eqb_eq.
  - split; [exact H1|]. split; [exact H4 | exact H6].
Defined.

(** ** Joining and leaving *)

(** X11: when a user who is not a participant joins an existing chat and
    then leaves it, the server state is what it was before the join. *)
Theorem join_then_leave_restores s1 s2 c u st chat :
  JSMap.get c (chats st) = Some chat ->
  ~ In u (c_participants chat) ->
  fst (leave_chat s2 c u (fst (join_chat s1 c u st))) = st.
Proof.
  intros H N.
  set (chat' := set_participants (c_participants chat ++ [u]) chat).
  assert (E : fst (join_chat s1 c u st) = with_chats (JSMap.set c chat') st).
  { unfold join_chat. rewrite H.
    destruct (arr_includes u (c_participants chat)) eqn:I; auto.
    apply arr_includes_In in I. tauto. }
  rewrite E. unfold leave_chat.
  change (chats (with_chats (JSMap.set c chat') st))
    with (JSMap.set c chat' (chats st)).
  rewrite jsmap_get_set_eq. cbn [fst].
  assert (F : @filter string (fun p : string => negb (String.eqb p u))
                (c_participants chat')
              = c_participants chat).
  { unfold chat'. cbn [c_participants set_participants].
    pose proof (filter_out_absent u _ N) as Q. unfold UserId in *.
    rewrite filter_app, Q. cbn [filter].
    rewrite String.eqb_refl. cbn [negb]. apply app_nil_r. }
  rewrite F.
  replace (set_participants (c_participants chat) chat') with chat
    by (unfold chat'; now destruct chat).
  unfold with_chats. cbn [chats users messages onlineUsers sockets rooms].
  rewrite jsmap_set_set, (jsmap_set_same _ _ _ H). now destruct st.
Qed.

Lemma join_then_leave_restores_witness :
  fst (leave_chat "s3" "c1" "carol"
         (fst (join_chat "s3" "c1" "carol" (state_after Scenario.setup))))
  = state_after Scenario.setup.
Proof.
  apply (join_then_leave_restores "s3" "s3" "c1" "carol"
           (state_after Scenario.setup) (newChat Scenario.c1 4)).
  - reflexivity.
  - simpl. intuition discriminate.
Defined.

(** X12: leave-chat on an existing chat removes every occurrence of the
    user from the participant list and keeps the other participants in their
    order; the other chats, the logs and the registry are untouched. The
    user-left-chat notice goes to exactly the sockets in the personal rooms of
    the remaining participants, so not to the room of the user who left; and
    leaving a second time changes nothing more. *)
Theorem leave_chat_effect sock c u st chat :
  JSMap.get c (chats st) = Some chat ->
  let st' := fst (leave_chat sock c u st) in
  (exists chat',
      JSMap.get c (chats st') = Some chat'
      /\ c_participants chat'
         = filter (fun p => negb (String.eqb p u)) (c_participants chat)
      /\ ~ In u (c_participants chat')
      /\ (forall p, p <> u ->
            (In p (c_participants chat') <-> In p (c_participants chat))))
  /\ (forall c', c' <> c -> JSMap.get c' (chats st') = JSMap.get c' (chats st))
  /\ messages st' = messages st
  /\ users st' = users st
  /\ (forall s ev,
        In (s, ev) (snd (leave_chat sock c u st))
        <-> ev = UserLeftChat c u (username_of u st)
            /\ exists p, In p (c_participants chat) /\ p <> u
                         /\ In s (sockets_in (user_room p) st))
  /\ fst (leave_chat sock c u st') = st'.
Proof.
  intros H st'.
  set (ps' := filter (fun p => negb (String.eqb p u)) (c_participants chat)).
  assert (E : leave_chat sock c u st
              = (with_chats (JSMap.set c (set_participants ps' chat)) st,
                 emit_to_each ps' (UserLeftChat c u (username_of u st))
                   (with_chats (JSMap.set c (set_participants ps' chat)) st))).
  { unfold leave_chat. now rewrite H. }
  assert (Nu : ~ In u ps').
  { intros Hin. apply filter_In in Hin. destruct Hin as [_ Hin].
    now rewrite String.eqb_refl in Hin. }
  assert (G : JSMap.get c (chats st') = Some (set_participants ps' chat)).
  { subst st'. rewrite E. simpl. apply jsmap_get_set_eq. }
  split; [|split; [|split; [|split; [|split]]]].
  - exists (set_participants ps' chat). repeat split; auto.
    + intros Hin. simpl in Hin. apply filter_In in Hin. tauto.
    + intros Hin. simpl. apply filter_In. split; auto.
      apply negb_true_iff, String.eqb_neq. assumption.
  - intros c' N. subst st'. rewrite E. simpl. now apply jsmap_get_set_neq.
  - subst st'. now rewrite E.
  - subst st'. now rewrite E.
  - intros s ev. rewrite E. simpl. rewrite in_emit_to_each. split.
    + intros [-> [p [Hp Hs]]]. split; auto. exists p.
      apply filter_In in Hp. destruct Hp as [Hp Hn].
      apply negb_true_iff, String.eqb_neq in Hn. auto.
    + intros [-> [p [Hp [Hn Hs]]]]. split; auto. exists p. split; auto.
      apply filter_In. split; auto. now apply negb_true_iff, String.eqb_neq.
  - apply (leave_chat_non_member sock c u st' _ G). exact Nu.
Qed.

Lemma leave_chat_effect_witness :
  let st := state_after Scenario.setup in
  snd (leave_chat "s2" "c1" "bob" st)
  = [("s1", UserLeftChat "c1" "bob" (Some "bob"))]
  /\ (In ("s2", UserLeftChat "c1" "bob" (Some "bob"))
         (snd (leave_chat "s2" "c1" "bob" st))
      <-> UserLeftChat "c1" "bob" (Some "bob")
          = UserLeftChat "c1" "bob" (username_of "bob" st)
          /\ exists p, In p ["alice"; "bob"] /\ p <> "bob"
                       /\ In "s2" (sockets_in (user_room p) st)).
Proof.
  intros st. split; [reflexivity|].
  destruct (leave_chat_effect "s2" "c1" "bob" st (newChat Scenario.c1 4) eq_refl)
    as (_ & _ & _ & _ & H & _).
  apply H.
Defined.

(** X13: join-chat by a user who is not yet a participant of an existing
    chat appends the user at the end of the participant list; the other
    chats, the logs and the registry are untouched, and the
    user-joined-chat notice goes to exactly the sockets in the personal rooms
    of the old participants and of the user who joined. *)
Theorem join_chat_effect sock c u st chat :
  JSMap.get c (chats st) = Some chat ->
  ~ In u (c_participants chat) ->
  let st' := fst (join_chat sock c u st) in
  (exists chat',
      JSMap.get c (chats st') = Some chat'
      /\ c_participants chat' = c_participants chat ++ [u])
  /\ (forall c', c' <> c -> JSMap.get c' (chats st') = JSMap.get c' (chats st))
  /\ messages st' = messages st
  /\ users st' = users st
  /\ (forall s ev,
        In (s, ev) (snd (join_chat sock c u st))
        <-> ev = UserJoinedChat c u (username_of u st)
            /\ exists p, (In p (c_participants chat) \/ p = u)
                         /\ In s (sockets_in (user_room p) st)).
Proof.
  intros H N st'.
  set (chat' := set_participants (c_participants chat ++ [u]) chat).
  assert (E : join_chat sock c u st
              = (with_chats (JSMap.set c chat') st,
                 emit_to_each (c_participants chat ++ [u])
                   (UserJoinedChat c u (username_of u st))
                   (with_chats (JSMap.set c chat') st))).
  { unfold join_chat. rewrite H.
    destruct (arr_includes u (c_participants chat)) eqn:I; auto.
    apply arr_includes_In in I. tauto. }
  subst st'. rewrite E. simpl.
  split; [|split; [|split; [|split]]]; auto.
  - exists chat'. split; [apply jsmap_get_set_eq | reflexivity].
  - intros c' Nc. now apply jsmap_get_set_neq.
  - intros s ev. rewrite in_emit_to_each. split.
    + intros [-> [p [Hp Hs]]]. split; auto. exists p. split; auto.
      apply in_app_or in Hp. destruct Hp as [Hp | [<- | []]]; auto.
    + intros [-> [p [Hp Hs]]]. split; auto. exists p. split; auto.
      apply in_or_app. destruct Hp as [Hp | ->]; simpl; auto.
Qed.

Lemma join_chat_effect_witness :
  let st := state_after Scenario.setup in
  exists chat',
    JSMap.get "c1" (chats (fst (join_chat "s1" "c1" "carol" st))) = Some chat'
    /\ c_participants chat' = ["alice"; "bob"; "carol"].
Proof.
  intros st.
  destruct (join_chat_effect "s1" "c1" "carol" st (newChat Scenario.c1 4) eq_refl)
    as (H & _).
  - simpl. intuition discriminate.
  - exact H.
Defined.

(** ** Emptied chats and the cleanup *)

Lemma filter_out_all (u : string) (ps : list string) :
  (forall p, In p ps -> p = u) ->
  @filter string (fun p : string => negb (String.eqb p u)) ps = [].
Proof.
  induction ps as [|p ps IH]; simpl; auto. intros H.
  rewrite (H p (or_introl eq_refl)), String.eqb_refl. simpl.
  apply IH. intros q Hq. apply H. now right.
Qed.

(** X14: when the only participant of a chat leaves it, the chat is not
    deleted by the leave: it stays in the directory, with its log, until the
    next cleanup, which deletes the chat and the log, so that
    [get-messages] then answers the empty list. *)
Theorem leave_last_then_cleanup sock c u now st chat :
  wf_server st ->
  JSMap.get c (chats st) = Some chat ->
  (forall p, In p (c_participants chat) -> p = u) ->
  let st1 := fst (leave_chat sock c u st) in
  let st2 := cleanup now st1 in
  JSMap.has c (chats st1) = true
  /\ JSMap.get c (messages st1) = JSMap.get c (messages st)
  /\ JSMap.get c (chats st2) = None
  /\ JSMap.get c (messages st2) = None
  /\ get_messages c st2 = [].
Proof.
  intros W H A st1 st2.
  pose proof (wf_step 0%Z (EvLeaveChat sock c u) st W) as W1.
  cbn [step] in W1. fold st1 in W1.
  assert (E : st1 = with_chats (JSMap.set c (set_participants [] chat)) st).
  { subst st1. unfold leave_chat. rewrite H. cbn [fst].
    now rewrite (filter_out_all u _ A). }
  assert (G : JSMap.get c (chats st1) = Some (set_participants [] chat)).
  { rewrite E. simpl. apply jsmap_get_set_eq. }
  assert (M : JSMap.get c (messages st2) = None).
  { subst st2. rewrite (cleanup_filter now st1 W1). simpl.
    rewrite jsmap_get_filter by apply W1. simpl. rewrite G. simpl.
    now destruct (JSMap.get c (messages st1)). }
  split; [|split; [|split; [|split]]].
  - unfold JSMap.has. now rewrite G.
  - now rewrite E.
  - subst st2. rewrite (cleanup_filter now st1 W1). simpl.
    rewrite jsmap_get_filter by apply W1. now rewrite G.
  - exact M.
  - unfold get_messages. now rewrite M.
Qed.

Lemma leave_last_then_cleanup_witness :
  let st := fst (leave_chat "s1" "c1" "alice" (state_after Scenario.chatting)) in
  let st1 := fst (leave_chat "s2" "c1" "bob" st) in
  get_messages "c1" st1 = [Scenario.hi]
  /\ JSMap.has "c1" (chats st1) = true
  /\ JSMap.get "c1" (chats (cleanup 9 st1)) = None
  /\ get_messages "c1" (cleanup 9 st1) = [].
Proof.
  intros st st1.
  destruct (leave_last_then_cleanup "s2" "c1" "bob" 9 st
              (set_participants ["bob"] (newChat Scenario.c1 4)))
    as (H1 & _ & H3 & _ & H5).
  - apply (wf_step 6 (EvLeaveChat "s1" "c1" "alice")
             (state_after Scenario.chatting) (wf_state_after Scenario.chatting)).
  - reflexivity.
  - simpl. intros p [<- | []]. reflexivity.
  - split; [reflexivity|]. split; [exact H1|]. split; [exact H3 | exact H5].
Defined.

Lemma filter_idem {A} (f : A -> bool) l : filter f (filter f l) = filter f l.
Proof.
  induction l as [|x l IH]; simpl; auto.
  destruct (f x) eqn:E; simpl; rewrite ?E, IH; reflexivity.
Qed.

(** X15: the cleanup is idempotent: a second sweep at the same instant
    finds nothing left to delete. *)
Theorem cleanup_idempotent now st :
  wf_server st -> cleanup now (cleanup now st) = cleanup now st.
Proof.
  intros W.
  pose proof (wf_step now EvCleanup st W) as W1. cbn [step fst] in W1.
  rewrite (cleanup_filter now (cleanup now st) W1).
  rewrite (cleanup_filter now st W). simpl.
  destruct W as [Wu Wc Wm]. f_equal.
  - apply filter_idem.
  - apply filter_idem.
  - apply forallb_filter_id, forallb_forall. intros [k log] _. simpl.
    rewrite jsmap_get_filter by assumption.
    destruct (JSMap.get k (chats st)) as [chat|]; simpl; auto.
    destruct (is_empty_chat chat) eqn:E; simpl; auto. now rewrite E.
Qed.

Lemma cleanup_idempotent_witness :
  cleanup Scenario.sweep_time
    (cleanup Scenario.sweep_time (state_after Scenario.bob_gone))
  = cleanup Scenario.sweep_time (state_after Scenario.bob_gone).
Proof.
  apply (cleanup_idempotent Scenario.sweep_time (state_after Scenario.bob_gone)).
  apply wf_state_after.
Defined.

(** ** Searching, again *)

Lemma str_includes_empty s : str_includes s EmptyString = true.
Proof. now destruct s. Qed.

(** X16: the empty query matches every user: search-users then answers
    with the first 10 users of the registry, in registry order. *)
Theorem search_empty_query st :
  search_users EmptyString st
  = map (summary st) (firstn 10 (JSMap.values (users st))).
Proof.
  unfold search_users, search_users_with. do 2 f_equal.
  apply forallb_filter_id, forallb_forall. intros user _.
  unfold search_matches_with. cbn [toLowerCase].
  now rewrite str_includes_empty.
Qed.



(** ** Creating a chat and coming online: what else changes *)

(** X18: create-chat touches one directory entry and one log: every other
    chat and every other log is as it was, and so are the registry and the
    online set. The chat-created notice, carrying the stored chat, goes to
    exactly the sockets in the personal rooms of the participants the request
    lists; the creator is notified only if listed. *)
Theorem create_chat_frame sock d now st :
  let st' := fst (create_chat sock d now st) in
  (forall c, c <> cd_id d ->
     JSMap.get c (chats st') = JSMap.get c (chats st)
     /\ JSMap.get c (messages st') = JSMap.get c (messages st))
  /\ users st' = users st
  /\ onlineUsers st' = onlineUsers st
  /\ (forall s ev,
        In (s, ev) (snd (create_chat sock d now st))
        <-> ev = ChatCreated (newChat d now)
            /\ exists p, In p (cd_participants d)
                         /\ In s (sockets_in (user_room p) st)).
Proof.
  intros st'. subst st'.
  split; [|split; [|split]]; try reflexivity.
  - intros c N. simpl. split; now apply jsmap_get_set_neq.
  - intros s ev.
    exact (in_emit_to_each s ev (cd_participants d)
             (ChatCreated (newChat d now)) st).
Qed.

Lemma create_chat_frame_witness :
  let st := state_after Scenario.setup in
  JSMap.get "c1" (chats (fst (create_chat "s1" Scenario.nobody 9 st)))
  = JSMap.get "c1" (chats st)
  /\ JSMap.get "c1" (messages (fst (create_chat "s1" Scenario.nobody 9 st)))
     = JSMap.get "c1" (messages st).
Proof.
  intros st.
  destruct (create_chat_frame "s1" Scenario.nobody 9 st) as (H & _).
  apply (H "c1"). discriminate.
Defined.

(** X19: user-online stores the user built from the payload under its id,
    with the socket the event came from, the [isOnline] flag set and the
    current time as [lastSeen]; the id is in the online set afterwards. No
    other user, no chat and no log changes, and every connected socket is
    sent users-online with the new online set, which lists the id. *)
Theorem user_online_registers sock d now st :
  let st' := fst (user_online sock d now st) in
  JSMap.get (ud_userId d) (users st')
  = Some (mkUser (ud_userId d) sock (ud_username d) (ud_displayName d) true now)
  /\ JSSet.has (ud_userId d) (onlineUsers st') = true
  /\ (forall k, k <> ud_userId d ->
        JSMap.get k (users st') = JSMap.get k (users st)
        /\ JSSet.has k (onlineUsers st') = JSSet.has k (onlineUsers st))
  /\ chats st' = chats st
  /\ messages st' = messages st
  /\ snd (user_online sock d now st)
     = map (fun s => (s, UsersOnline (onlineUsers st'))) (sockets st)
  /\ In (ud_userId d) (onlineUsers st').
Proof.
  intros st'. subst st'.
  destruct (user_online_stores sock d now st) as (Hu & Ho & Hc & Hm & _).
  rewrite Hu, Ho, Hc, Hm.
  assert (Hh : JSSet.has (ud_userId d) (JSSet.add (ud_userId d) (onlineUsers st))
               = true).
  { now rewrite jsset_has_add, String.eqb_refl. }
  split; [apply jsmap_get_set_eq|]. split; [exact Hh|].
  split; [|split; [reflexivity|split; [reflexivity|split]]].
  - intros k N. rewrite jsmap_get_set_neq by assumption.
    rewrite jsset_has_add. apply String.eqb_neq in N. now rewrite N.
  - reflexivity.
  - now apply jsset_has_In.
Qed.

Lemma user_online_registers_witness :
  let st := state_after Scenario.setup in
  JSMap.get "alice" (users (fst (user_online "s3" Scenario.sam_a 7 st)))
  = JSMap.get "alice" (users st)
  /\ JSSet.has "alice" (onlineUsers (fst (user_online "s3" Scenario.sam_a 7 st)))
     = JSSet.has "alice" (onlineUsers st).
Proof.
  intros st.
  destruct (user_online_registers "s3" Scenario.sam_a 7 st) as (_ & _ & H & _).
  apply (H "alice"). discriminate.
Defined.

(** ** More invariants of reachable states *)

(** X20: in every state the server can reach, a chat is stored under its
    own id and has a log in the message store. *)
Theorem directory_invariant tr :
  let st := state_after tr in
  forall k chat, JSMap.get k (chats st) = Some chat ->
                 c_id chat = k /\ JSMap.has k (messages st) = true.
Proof.
  intros st k chat H. destruct (directory_ok_state_after tr) as [H1 H2].
  split; [now apply H1|]. apply H2. unfold JSMap.has. fold st. now rewrite H.
Qed.

Lemma directory_invariant_witness :
  c_id (newChat Scenario.c1 4) = "c1"
  /\ JSMap.has "c1" (messages (state_after Scenario.setup)) = true.
Proof.
  apply (directory_invariant Scenario.setup "c1" (newChat Scenario.c1 4)).
  reflexivity.
Defined.

(** X21: a disconnect touches at most one user: the loop stops at the first
    user recorded with the socket, so every other user, also one recorded
    with the same socket, keeps its entry and its place in the online set. *)
Theorem disconnect_marks_one_user sock now st :
  exists k0, forall k, k <> k0 ->
    JSMap.get k (users (fst (disconnect sock now st))) = JSMap.get k (users st)
    /\ JSSet.has k (onlineUsers (fst (disconnect sock now st)))
       = JSSet.has k (onlineUsers st).
Proof.
  unfold disconnect. destruct (find _ _) as [[k0 u0]|].
  - exists k0. intros k N. simpl.
    rewrite jsmap_get_set_neq by assumption. rewrite jsset_has_delete.
    apply String.eqb_neq in N. now rewrite N.
  - exists sock. intros k _. simpl. auto.
Qed.

Lemma disconnect_marks_one_user_witness :
  exists k0, forall k, k <> k0 ->
    JSMap.get k (users (fst (disconnect "s1" 9
                               (fst (user_online "s1" Scenario.bob 3
                                       (state_after Scenario.setup))))))
    = JSMap.get k (users (fst (user_online "s1" Scenario.bob 3
                                 (state_after Scenario.setup))))
    /\ JSSet.has k (onlineUsers (fst (disconnect "s1" 9
                                        (fst (user_online "s1" Scenario.bob 3
                                                (state_after Scenario.setup))))))
       = JSSet.has k (onlineUsers (fst (user_online "s1" Scenario.bob 3
                                          (state_after Scenario.setup)))).
Proof.
  apply (disconnect_marks_one_user "s1" 9
           (fst (user_online "s1" Scenario.bob 3 (state_after Scenario.setup)))).
Defined.

(** X22: in every reachable state the cleanup reaps no user of the online
    set, however long ago the user was last seen. *)
Theorem cleanup_keeps_online tr now k :
  let st := state_after tr in
  In k (onlineUsers st) ->
  JSMap.has k (users (cleanup now st)) = true
  /\ JSMap.get k (users (cleanup now st)) = JSMap.get k (users st).
Proof.
  intros st Hin.
  pose proof (wf_state_after tr) as W. fold st in W.
  destruct (presence_ok_state_after tr) as [_ P2 P3 _]. fold st in P2, P3.
  apply jsset_has_In in Hin. pose proof (P3 k Hin) as Hu.
  rewrite (cleanup_filter now st W). simpl.
  assert (G : JSMap.get k (filter (fun kv => negb (inactive now (snd kv)))
                             (users st))
              = JSMap.get k (users st)).
  { rewrite jsmap_get_filter by apply W.
    destruct (JSMap.get k (users st)) as [user|] eqn:E; auto. simpl.
    unfold inactive. now rewrite (P2 k user E), Hin. }
  split; [|exact G]. unfold JSMap.has in *. now rewrite G.
Qed.

Lemma cleanup_keeps_online_witness :
  JSMap.has "alice" (users (cleanup 999999999 (state_after Scenario.bob_gone)))
  = true
  /\ JSMap.get "alice" (users (cleanup 999999999 (state_after Scenario.bob_gone)))
     = JSMap.get "alice" (users (state_after Scenario.bob_gone)).
Proof.
  apply (cleanup_keeps_online Scenario.bob_gone 999999999 "alice").
  simpl. auto.
Defined.

Lemma lower_ascii_idem c : lower_ascii (lower_ascii c) = lower_ascii c.
Proof.
  destruct c as [[] [] [] [] [] [] [] []]; reflexivity.
Qed.

Lemma toLowerCase_idem s : toLowerCase (toLowerCase s) = toLowerCase s.
Proof.
  induction s as [|c s IH]; simpl; auto. now rewrite lower_ascii_idem, IH.
Qed.

(** X23: the case of the query does not matter: the query and its
    lower-cased form get the same answer. *)
Theorem search_query_case q st :
  search_users (toLowerCase q) st = search_users q st.
Proof.
  unfold search_users, search_users_with. do 2 f_equal.
  apply filter_ext. intros user.
  unfold search_matches_with. now rewrite toLowerCase_idem.
Qed.
